(** * YOLO-World image demo: prompt loading, post-processing and writing

    A shallow embedding of [image_demo.py]: the text-prompt loader and the
    image-list resolution of the [__main__] block, and [inference_detector]
    (score threshold, top-k truncation, label rendering, image write).

    Conventions of the embedding.
    - A Python [str] is a [string]; a character is a code point below 256.
    - A Python exception is a value of [exn]; code that can raise returns
      a [result].
    - Confidence scores and the threshold are rationals ([Q]); every finite
      floating-point value is one and the comparisons agree on them.  The
      threshold is the value torch compares the scores with.
    - The detector, the annotators and the image codec are external
      collaborators and appear as Section variables. *)

From Stdlib Require Import ZArith QArith Qabs List String Ascii Bool Lia.
From Stdlib Require Import Sorting.Mergesort Sorting.Sorted Sorting.Permutation.
From Stdlib Require Import Orders DecimalString.
From stdpp Require Import gmap strings.

Open Scope string_scope.
Open Scope list_scope.

(** ** Exceptions and results *)

Inductive exn : Type :=
  | OSError        (* open / os.listdir on a missing or ill-typed path *)
  | IndexError     (* list or tensor index out of range *)
  | RuntimeError   (* torch.topk with k out of range *)
  | ConfigError    (* the spec's name for a rejected prompt input *)
  | ExternalError. (* raised inside an external collaborator *)

Inductive result (A : Type) : Type :=
  | Ok (a : A)
  | Raise (e : exn).
Arguments Ok {A} a.
Arguments Raise {A} e.

Definition rbind {A B} (r : result A) (k : A -> result B) : result B :=
  match r with
  | Ok a => k a
  | Raise e => Raise e
  end.

Fixpoint rmap_list {A B} (f : A -> result B) (l : list A) : result (list B) :=
  match l with
  | [] => Ok []
  | x :: l' =>
      rbind (f x) (fun y => rbind (rmap_list f l') (fun ys => Ok (y :: ys)))
  end.

(** ** Python string operations used by the script *)

Module PyStr.

Definition LF : ascii := ascii_of_nat 10.
Definition CR : ascii := ascii_of_nat 13.

(** [s.split(sep)] for a one-character separator. *)
Fixpoint split (sep : ascii) (s : string) : list string :=
  match s with
  | EmptyString => [EmptyString]
  | String c s' =>
      if Ascii.eqb c sep then EmptyString :: split sep s'
      else match split sep s' with
           | tok :: rest => String c tok :: rest
           | [] => [String c EmptyString]
           end
  end.

(** Number of occurrences of a character: [s.count(c)]. *)
Fixpoint count (c : ascii) (s : string) : nat :=
  match s with
  | EmptyString => 0
  | String a s' => (if Ascii.eqb a c then 1 else 0) + count c s'
  end.

(** [str.isspace] on one character, for code points below 256. *)
Definition isspace (c : ascii) : bool :=
  let n := nat_of_ascii c in
  (((9 <=? n) && (n <=? 13)) || ((28 <=? n) && (n <=? 32))
   || (n =? 133) || (n =? 160))%nat.

Fixpoint lstrip (p : ascii -> bool) (s : string) : string :=
  match s with
  | EmptyString => EmptyString
  | String c s' => if p c then lstrip p s' else s
  end.

Fixpoint rstrip (p : ascii -> bool) (s : string) : string :=
  match s with
  | EmptyString => EmptyString
  | String c s' =>
      match rstrip p s' with
      | EmptyString => if p c then EmptyString else String c EmptyString
      | r => String c r
      end
  end.

(** [s.strip()] *)
Definition strip (s : string) : string := rstrip isspace (lstrip isspace s).

Definition is_crlf (c : ascii) : bool := Ascii.eqb c CR || Ascii.eqb c LF.

(** [s.rstrip('\r\n')]: drops every trailing CR and LF. *)
Definition rstrip_crlf (s : string) : string := rstrip is_crlf s.

(** [s.endswith(suffix)] *)
Fixpoint endswith (s suffix : string) : bool :=
  if String.eqb s suffix then true
  else match s with
       | EmptyString => false
       | String _ s' => endswith s' suffix
       end.

(** [s.startswith(prefix)] *)
Definition startswith (s pre : string) : bool := String.prefix pre s.

(** Text-mode reading with the default [newline=None]: CR LF and a lone
    CR both arrive as LF. *)
Fixpoint universal_newlines (s : string) : string :=
  match s with
  | EmptyString => EmptyString
  | String c s' =>
      if Ascii.eqb c CR then
        String LF
          (match s' with
           | String c2 s'' =>
               if Ascii.eqb c2 LF then universal_newlines s''
               else universal_newlines s'
           | EmptyString => EmptyString
           end)
      else String c (universal_newlines s')
  end.

(** Cut after every LF, keeping it: what [readlines] does to the
    translated text. *)
Fixpoint splitlines_keep (s : string) : list string :=
  match s with
  | EmptyString => []
  | String c s' =>
      if Ascii.eqb c LF then String c EmptyString :: splitlines_keep s'
      else match splitlines_keep s' with
           | l :: ls => String c l :: ls
           | [] => [String c EmptyString]
           end
  end.

End PyStr.

(** ** [os.path] on POSIX *)

Module PosixPath.

(** [osp.join(a, b)] *)
Definition join (a b : string) : string :=
  if PyStr.startswith b "/" then b
  else if String.eqb a EmptyString || PyStr.endswith a "/" then (a ++ b)%string
  else (a ++ "/" ++ b)%string.

(** [osp.basename(p)]: what follows the last slash. *)
Definition basename (p : string) : string :=
  List.last (PyStr.split "/" p) EmptyString.

End PosixPath.




(** ** The file system

    A path names a regular file with its contents, or a directory with the
    names [os.listdir] returns for it, in that order. *)

Inductive node : Type :=
  | File (data : string)
  | Dir (entries : list string).

Abbreviation filesystem := (gmap string node).

(** [osp.isfile(p)] *)
Definition isfile (fs : filesystem) (p : string) : bool :=
  match fs !! p with
  | Some (File _) => true
  | _ => false
  end.

(** [os.listdir(p)] *)
Definition listdir (fs : filesystem) (p : string) : result (list string) :=
  match fs !! p with
  | Some (Dir entries) => Ok entries
  | _ => Raise OSError
  end.

(** [with open(p) as f: lines = f.readlines()] *)
Definition open_readlines (fs : filesystem) (p : string) : result (list string) :=
  match fs !! p with
  | Some (File data) =>
      Ok (PyStr.splitlines_keep (PyStr.universal_newlines data))
  | _ => Raise OSError
  end.

(** ** Prompt loader ([# load text] in [__main__]) *)

Definition sentinel : list string := [" "].

Definition load_texts (fs : filesystem) (text : string)
  : result (list (list string)) :=
  if PyStr.endswith text ".txt" then
    rbind (open_readlines fs text) (fun lines =>
      Ok (map (fun t => [PyStr.rstrip_crlf t]) lines ++ [sentinel]))
  else
    Ok (map (fun t => [PyStr.strip t]) (PyStr.split "," text) ++ [sentinel]).

(** ** Image list ([images = ...] in [__main__]) *)

Definition is_png_or_jpg (img : string) : bool :=
  PyStr.endswith img ".png" || PyStr.endswith img ".jpg".

Definition resolve_images (fs : filesystem) (image : string)
  : result (list string) :=
  if negb (isfile fs image) then
    rbind (listdir fs image) (fun names =>
      Ok (map (PosixPath.join image) (List.filter is_png_or_jpg names)))
  else Ok [image].

(** ** Predictions *)

(** One row of [pred_instances]. *)
Record Instance : Type := mkInstance {
  bboxes : Q * Q * Q * Q;
  labels : Z;
  scores : Q
}.

(** One row of [sv.Detections]. *)
Record Detection : Type := mkDetection {
  xyxy : Q * Q * Q * Q;
  class_id : Z;
  confidence : Q
}.

(** [a > b] on scores. *)
Definition Qgtb (a b : Q) : bool := negb (Qle_bool a b).

(** [pred_instances[pred_instances.scores.float() > score_thr]] *)
Definition threshold (score_thr : Q) (pred : list Instance) : list Instance :=
  List.filter (fun i => Qgtb (scores i) score_thr) pred.

(** [l[i]] on a Python list: a negative index counts from the end. *)
Definition py_index {A} (l : list A) (i : Z) : result A :=
  let j := if (i <? 0)%Z then (i + Z.of_nat (List.length l))%Z else i in
  if (j <? 0)%Z then Raise IndexError
  else match nth_error l (Z.to_nat j) with
       | Some x => Ok x
       | None => Raise IndexError
       end.

(** [pred_instances[indices]] for a tensor of positions. *)
Definition index_select {A} (l : list A) (indices : list nat) : result (list A) :=
  rmap_list (fun i => match nth_error l i with
                      | Some x => Ok x
                      | None => Raise IndexError
                      end) indices.

(** What [torch.topk] promises about the positions it returns for [k] not
    above the length: [k] distinct positions, and no position left out
    holds a larger score than one that was selected.  The order among
    equal scores is left open. *)
Record topk_spec (s : list Q) (k : nat) (idx : list nat) : Prop := {
  topk_length : List.length idx = k;
  topk_nodup : List.NoDup idx;
  topk_range : forall i, In i idx -> (i < List.length s)%nat;
  topk_largest : forall i j, In i idx -> ~ In j idx -> (j < List.length s)%nat ->
                 (nth j s 0 <= nth i s 0)%Q
}.

(** A top-k that computes: positions sorted by decreasing score, earlier
    position first among equals, then the first [k]. *)
Fixpoint insert_desc (x : nat * Q) (l : list (nat * Q)) : list (nat * Q) :=
  match l with
  | [] => [x]
  | y :: l' =>
      if Qle_bool (snd y) (snd x) then x :: l else y :: insert_desc x l'
  end.

Definition sort_desc (l : list (nat * Q)) : list (nat * Q) :=
  fold_right insert_desc [] l.

Definition stable_topk (s : list Q) (k : nat) : list nat :=
  map fst (firstn k (sort_desc (combine (seq 0 (List.length s)) s))).

(** ** Label text *)

(** Nearest integer to a rational that is not negative, ties to even. *)
Definition round_half_even (q : Q) : Z :=
  let n := Qnum q in
  let d := Z.pos (Qden q) in
  let fl := (n / d)%Z in
  let r2 := (2 * (n mod d))%Z in
  if (r2 <? d)%Z then fl
  else if (d <? r2)%Z then (fl + 1)%Z
  else if Z.even fl then fl else (fl + 1)%Z.

Definition digit (d : Z) : ascii := ascii_of_nat (48 + Z.to_nat d).

(** [f"{q:0.2f}"] *)
Definition format_2f (q : Q) : string :=
  let h := round_half_even (Qabs q * 100) in
  ((if Qle_bool 0 q then EmptyString else "-")
   ++ NilZero.string_of_uint (N.to_uint (Z.to_N (h / 100)))
   ++ "."
   ++ String (digit ((h / 10) mod 10)) (String (digit (h mod 10)) EmptyString))%string.

(** [f"{texts[class_id][0]} {confidence:0.2f}"] *)
Definition label_of (texts : list (list string)) (d : Detection) : result string :=
  rbind (py_index texts (class_id d)) (fun group =>
  rbind (py_index group 0) (fun name : string =>
  Ok (name ++ " " ++ format_2f (confidence d))%string)).

Definition render_labels (texts : list (list string)) (dets : list Detection)
  : result (list string) :=
  rmap_list (label_of texts) dets.

(** [sv.Detections(xyxy=..., class_id=..., confidence=...)] *)
Definition to_detections (pred : list Instance) : list Detection :=
  map (fun i => mkDetection (bboxes i) (labels i) (scores i)) pred.

(** ** Post-processing inside [inference_detector] *)

(** [scores.topk(k)[1]]: the selection is torch's. *)
Class TorchTopk : Type := { topk : list Q -> nat -> list nat }.

(** The promise of [torch.topk], for every call it accepts. *)
Definition topk_contract `{TorchTopk} : Prop :=
  forall (s : list Q) (k : nat),
    (k <= List.length s)%nat -> topk_spec s k (topk s k).

(** torch rejects a [k] outside [0 .. len]. *)
Definition tensor_topk `{TorchTopk} (s : list Q) (k : Z) : result (list nat) :=
  if (k <? 0)%Z || (Z.of_nat (List.length s) <? k)%Z then Raise RuntimeError
  else Ok (topk s (Z.to_nat k)).

(** Lines 75-79: threshold, then top-k when more than [max_dets] remain. *)
Definition postprocess `{TorchTopk} (raw : list Instance) (max_dets : Z)
    (score_thr : Q) : result (list Instance) :=
  let pred_instances := threshold score_thr raw in
  if (Z.of_nat (List.length (map scores pred_instances)) >? max_dets)%Z then
    rbind (tensor_topk (map scores pred_instances) max_dets) (fun indices =>
      index_select pred_instances indices)
  else Ok pred_instances.

(** ** External collaborators of [inference_detector] *)

Class Collaborators : Type := {
  image : Type;
  (** [runner.pipeline] then [runner.model.test_step(...)[0].pred_instances],
      under [autocast(enabled=use_amp)] *)
  runner_predict :
    bool -> filesystem -> string -> list (list string) -> result (list Instance);
  (** the decoder behind [cv2.imread]; [None] when the data is no image *)
  imdecode : string -> option image;
  (** the encoder behind [cv2.imwrite], chosen by the extension of the path *)
  imencode : string -> image -> result string;
  (** [BOUNDING_BOX_ANNOTATOR.annotate], given whatever [cv2.imread] returned *)
  box_annotate : option image -> list Detection -> result image;
  (** [LABEL_ANNOTATOR.annotate] *)
  label_annotate : image -> list Detection -> list string -> result image;
  (** the [if show:] block *)
  show_image : image -> result unit
}.

(** ** Commands: file-system state and exceptions *)

Definition M (A : Type) : Type := filesystem -> filesystem * result A.

Definition ret {A} (a : A) : M A := fun fs => (fs, Ok a).

Definition bind {A B} (m : M A) (k : A -> M B) : M B :=
  fun fs =>
    match m fs with
    | (fs', Ok a) => k a fs'
    | (fs', Raise e) => (fs', Raise e)
    end.

Definition lift {A} (r : result A) : M A := fun fs => (fs, r).

Definition reading {A} (f : filesystem -> A) : M A := fun fs => (fs, Ok (f fs)).

Declare Scope cmd_scope.
Delimit Scope cmd_scope with cmd.
Notation "x <- m ;; k" := (bind m (fun x => k))
  (at level 100, m at next level, right associativity) : cmd_scope.
Notation "m ;; k" := (bind m (fun _ => k))
  (at level 100, right associativity) : cmd_scope.

(** [runner.pipeline(...)] and [runner.model.test_step(...)], which read
    the image file themselves. *)
Definition predict `{Collaborators} (use_amp : bool) (image_path : string)
    (texts : list (list string)) : M (list Instance) :=
  fun fs => (fs, runner_predict use_amp fs image_path texts).

(** [cv2.imread(p)] *)
Definition cv2_imread `{Collaborators} (p : string) : M (option image) :=
  reading (fun fs => match fs !! p with
                     | Some (File data) => imdecode data
                     | _ => None
                     end).

(** [cv2.imwrite(p, img)]: replaces whatever [p] held.  The source ignores
    the returned flag; the write is taken to succeed once encoded. *)
Definition cv2_imwrite `{Collaborators} (p : string) (img : image) : M unit :=
  fun fs =>
    match imencode p img with
    | Ok data => (<[p := File data]> fs, Ok tt)
    | Raise e => (fs, Raise e)
    end.

Definition inference_detector `{TorchTopk} `{Collaborators}
    (image_path : string) (texts : list (list string)) (max_dets : Z)
    (score_thr : Q) (output_dir : string) (use_amp show : bool) : M unit :=
  (raw <- predict use_amp image_path texts ;;
   pred_instances <- lift (postprocess raw max_dets score_thr) ;;
   let detections := to_detections pred_instances in
   labels <- lift (render_labels texts detections) ;;
   img <- cv2_imread image_path ;;
   img <- lift (box_annotate img detections) ;;
   img <- lift (label_annotate img detections labels) ;;
   cv2_imwrite (PosixPath.join output_dir (PosixPath.basename image_path)) img ;;
   if show then lift (show_image img) else ret tt)%cmd.

(** [for image_path in images: inference_detector(...)] *)
Fixpoint process_images `{TorchTopk} `{Collaborators}
    (images : list string) (texts : list (list string)) (max_dets : Z)
    (score_thr : Q) (output_dir : string) (use_amp show : bool) : M unit :=
  match images with
  | [] => ret tt
  | image_path :: rest =>
      (inference_detector image_path texts max_dets score_thr output_dir
         use_amp show ;;
       process_images rest texts max_dets score_thr output_dir use_amp show)%cmd
  end.

(** The end of [__main__], from [images = ...] on: resolve the image
    argument, then run the loop over the job list. *)
Definition run_on_images `{TorchTopk} `{Collaborators}
    (img : string) (texts : list (list string)) (max_dets : Z)
    (score_thr : Q) (output_dir : string) (use_amp show : bool) : M unit :=
  (images <- (fun fs => (fs, resolve_images fs img)) ;;
   process_images images texts max_dets score_thr output_dir use_amp show)%cmd.

(** ** Vocabulary for the statements *)

Fixpoint all_chars (p : ascii -> bool) (s : string) : bool :=
  match s with
  | EmptyString => true
  | String c s' => p c && all_chars p s'
  end.

Definition first_char (s : string) : option ascii :=
  match s with
  | EmptyString => None
  | String c _ => Some c
  end.

Fixpoint last_char (s : string) : option ascii :=
  match s with
  | EmptyString => None
  | String c s' =>
      match last_char s' with
      | None => Some c
      | Some d => Some d
      end
  end.

Definition not_cr (c : ascii) : bool := negb (Ascii.eqb c PyStr.CR).
Definition not_lf (c : ascii) : bool := negb (Ascii.eqb c PyStr.LF).
Definition not_crlf (c : ascii) : bool := negb (PyStr.is_crlf c).

(** A line as [readlines] returns it: a body free of line breaks, followed
    by one LF, or left unterminated at the end of the file. *)
Definition line_of (body l : string) : Prop :=
  l = (body ++ String PyStr.LF EmptyString)%string \/ (l = body /\ body <> EmptyString).

Definition newline : string := String PyStr.LF EmptyString.

(** Where [inference_detector] writes the result for [image_path]. *)
Definition output_path (output_dir image_path : string) : string :=
  PosixPath.join output_dir (PosixPath.basename image_path).

(** Everything [inference_detector] does before the write, as a function
    of the file system it reads. *)
Definition annotated_image `{TorchTopk} `{Collaborators}
    (image_path : string) (texts : list (list string)) (max_dets : Z)
    (score_thr : Q) (use_amp : bool) (fs : filesystem) : result image :=
  rbind (runner_predict use_amp fs image_path texts) (fun raw =>
  rbind (postprocess raw max_dets score_thr) (fun pred_instances =>
  let detections := to_detections pred_instances in
  rbind (render_labels texts detections) (fun labels =>
  rbind (box_annotate
           (match fs !! image_path with
            | Some (File data) => imdecode data
            | _ => None
            end) detections) (fun img =>
  label_annotate img detections labels)))).


(** Decreasing score, on positions paired with their scores. *)
Definition desc (x y : nat * Q) : Prop := (snd y <= snd x)%Q.

(** A text file written line by line: every row is the body of a line
    and whether its terminator is CR LF rather than LF; [tail] is what
    follows the last terminator. *)
Definition CRLF : string := String PyStr.CR (String PyStr.LF EmptyString).

Definition file_text (rows : list (string * bool)) (tail : string) : string :=
  fold_right (fun (row : string * bool) (rest : string) =>
                (fst row ++ (if snd row then CRLF else newline) ++ rest)%string)
             tail rows.

(** A prompt that neither starts nor ends with whitespace. *)
Definition trimmed (n : string) : bool :=
  match first_char n with
  | Some c => negb (PyStr.isspace c)
  | None => true
  end
  && match last_char n with
     | Some c => negb (PyStr.isspace c)
     | None => true
     end.

(** A prompt written between two runs of characters: the row
    [(before, name, after)] stands for their concatenation. *)
Definition padded (row : string * string * string) : string :=
  (fst (fst row) ++ snd (fst row) ++ snd row)%string.

(** ** Collaborators that compute, for running the definitions *)

Definition demo_topk : TorchTopk := {| topk := stable_topk |}.

Definition demo_raw : list Instance :=
  [ mkInstance (0, 0, 10, 10)%Q 0 (9 # 10);
    mkInstance (1, 1, 5, 5)%Q 1 (4 # 10);
    mkInstance (2, 2, 8, 8)%Q 1 (6 # 10);
    mkInstance (3, 3, 9, 9)%Q 0 (95 # 100) ].

Definition demo_collaborators : Collaborators := {|
  image := string;
  runner_predict := fun _ fs p _ =>
    match fs !! p with
    | Some (File _) => Ok demo_raw
    | _ => Raise OSError
    end;
  imdecode := fun data => Some data;
  imencode := fun _ img => Ok img;
  box_annotate := fun o dets =>
    match o with
    | Some img => Ok (img ++ "+boxes")%string
    | None => Raise ExternalError
    end;
  label_annotate := fun img _ labels =>
    Ok (img ++ "+" ++ String.concat "," labels)%string;
  show_image := fun _ => Ok tt
|}.

Definition demo_fs : filesystem :=
  {[ "imgs" := Dir ["a.png"; "notes.md"; "b.jpg"; "C.PNG"; "sub"];
     "imgs/a.png" := File "A";
     "imgs/b.jpg" := File "B";
     "imgs/sub" := Dir ["d.png"];
     "imgs/sub/d.png" := File "D";
     "scan.tiff" := File "T";
     "names.txt" := File ("cat" ++ newline ++ "dog" ++ newline ++ newline);
     "empty.txt" := File EmptyString ]}.

(** * Properties *)

(** ** Strings *)

Lemma split_nonempty sep s : PyStr.split sep s <> [].
Proof.
  destruct s as [|c s]; simpl; [discriminate|].
  destruct (Ascii.eqb c sep); [discriminate|].
  destruct (PyStr.split sep s); discriminate.
Qed.

Lemma split_length sep s :
  List.length (PyStr.split sep s) = S (PyStr.count sep s).
Proof.
  induction s as [|c s IH]; simpl; [reflexivity|].
  destruct (Ascii.eqb c sep); simpl.
  - now rewrite IH.
  - destruct (PyStr.split sep s) as [|tok rest] eqn:E.
    + now apply split_nonempty in E.
    + simpl in *. exact IH.
Qed.

Lemma endswith_cons c s suf :
  PyStr.endswith (String c s) suf
  = if String.eqb (String c s) suf then true else PyStr.endswith s suf.
Proof. reflexivity. Qed.

Lemma endswith_refl s : PyStr.endswith s s = true.
Proof.
  destruct s; [reflexivity|]. now rewrite endswith_cons, String.eqb_refl.
Qed.

Lemma endswith_app pre suf : PyStr.endswith (pre ++ suf) suf = true.
Proof.
  induction pre as [|c pre IH].
  - apply endswith_refl.
  - change (String c pre ++ suf)%string with (String c (pre ++ suf)).
    rewrite endswith_cons, IH. now destruct (String.eqb _ _).
Qed.

Lemma endswith_spec s suf :
  PyStr.endswith s suf = true <-> exists pre, s = (pre ++ suf)%string.
Proof.
  split.
  - induction s as [|c s IH].
    + destruct suf; [|discriminate]. intros _. now exists EmptyString.
    + rewrite endswith_cons. destruct (String.eqb (String c s) suf) eqn:E.
      * apply String.eqb_eq in E. subst. intros _. now exists EmptyString.
      * intros H. destruct (IH H) as [pre ->]. now exists (String c pre).
  - intros [pre ->]. apply endswith_app.
Qed.

Lemma append_cons a (s t : string) :
  (String a s ++ t)%string = String a (s ++ t).
Proof. reflexivity. Qed.

Lemma append_nil (s : string) : (EmptyString ++ s)%string = s.
Proof. reflexivity. Qed.

Lemma lstrip_spec p s :
  exists pre, s = (pre ++ PyStr.lstrip p s)%string
    /\ all_chars p pre = true
    /\ forall c, first_char (PyStr.lstrip p s) = Some c -> p c = false.
Proof.
  induction s as [|a s (pre & Hs & Hpre & Hfirst)]; simpl.
  - exists EmptyString. repeat split. discriminate.
  - destruct (p a) eqn:Ea.
    + exists (String a pre). simpl. rewrite Ea, Hpre, append_cons, <- Hs. auto.
    + exists EmptyString. repeat split. simpl. now intros c [= <-].
Qed.

Lemma rstrip_spec p s :
  exists post, s = (PyStr.rstrip p s ++ post)%string
    /\ all_chars p post = true
    /\ forall c, last_char (PyStr.rstrip p s) = Some c -> p c = false.
Proof.
  induction s as [|a s (post & Hs & Hpost & Hlast)]; simpl.
  - exists EmptyString. repeat split. discriminate.
  - destruct (PyStr.rstrip p s) as [|d r] eqn:Er.
    + rewrite append_nil in Hs. subst post. destruct (p a) eqn:Ea.
      * exists (String a s). simpl. rewrite Ea, Hpost.
        split; [reflexivity|split; [reflexivity|discriminate]].
      * exists s. rewrite append_cons, append_nil. repeat split; auto.
        simpl. now intros c [= <-].
    + exists post. rewrite append_cons, <- Hs. repeat split; auto.
      intros c Hc. apply Hlast. simpl in *.
      destruct (last_char r); exact Hc.
Qed.

Lemma rstrip_first p s c :
  first_char s = Some c -> p c = false ->
  first_char (PyStr.rstrip p s) = Some c.
Proof.
  destruct s as [|a s]; simpl; [discriminate|].
  intros [= ->] Hc. destruct (PyStr.rstrip p s); [rewrite Hc|]; reflexivity.
Qed.

Lemma rstrip_first_inv p s c :
  first_char (PyStr.rstrip p s) = Some c -> first_char s = Some c.
Proof.
  destruct s as [|a s]; simpl; [discriminate|].
  destruct (PyStr.rstrip p s); [destruct (p a)|]; simpl; congruence.
Qed.

(** [strip] removes a run of whitespace at each end and nothing else, and
    what is left neither starts nor ends with whitespace. *)
Lemma strip_spec s :
  exists pre post,
    s = (pre ++ PyStr.strip s ++ post)%string
    /\ all_chars PyStr.isspace pre = true
    /\ all_chars PyStr.isspace post = true
    /\ (forall c, first_char (PyStr.strip s) = Some c -> PyStr.isspace c = false)
    /\ (forall c, last_char (PyStr.strip s) = Some c -> PyStr.isspace c = false).
Proof.
  unfold PyStr.strip.
  destruct (lstrip_spec PyStr.isspace s) as (pre & Hs & Hpre & Hfirst).
  destruct (rstrip_spec PyStr.isspace (PyStr.lstrip PyStr.isspace s))
    as (post & Hl & Hpost & Hlast).
  exists pre, post. repeat split; auto.
  - now rewrite <- Hl.
  - intros c Hc. apply Hfirst. eapply rstrip_first_inv, Hc.
Qed.

(** ** Lines of a text file *)

Lemma all_chars_cons p c s :
  all_chars p (String c s) = p c && all_chars p s.
Proof. reflexivity. Qed.

Lemma universal_newlines_no_cr_aux s :
  all_chars not_cr (PyStr.universal_newlines s) = true
  /\ forall c, all_chars not_cr (PyStr.universal_newlines (String c s)) = true.
Proof.
  induction s as [|a s [IH1 IH2]].
  - split; [reflexivity|]. intros c. simpl.
    destruct (Ascii.eqb c PyStr.CR) eqn:E; simpl; [reflexivity|].
    unfold not_cr. now rewrite E.
  - split; [apply IH2|]. intros c.
    change (PyStr.universal_newlines (String c (String a s)))
      with (if Ascii.eqb c PyStr.CR
            then String PyStr.LF
                   (if Ascii.eqb a PyStr.LF then PyStr.universal_newlines s
                    else PyStr.universal_newlines (String a s))
            else String c (PyStr.universal_newlines (String a s))).
    destruct (Ascii.eqb c PyStr.CR) eqn:E.
    + destruct (Ascii.eqb a PyStr.LF); rewrite all_chars_cons;
        [rewrite IH1|rewrite IH2]; reflexivity.
    + rewrite all_chars_cons, IH2. unfold not_cr. now rewrite E.
Qed.

Lemma universal_newlines_no_cr s :
  all_chars not_cr (PyStr.universal_newlines s) = true.
Proof. apply universal_newlines_no_cr_aux. Qed.

Lemma splitlines_keep_concat s :
  String.concat EmptyString (PyStr.splitlines_keep s) = s.
Proof.
  assert (Hc : forall l ls, String.concat EmptyString (l :: ls)
                 = (l ++ String.concat EmptyString ls)%string).
  { intros l [|l' ls]; simpl; [|reflexivity].
    induction l as [|a l IHl]; [reflexivity|].
    now rewrite append_cons, <- IHl. }
  induction s as [|c s IH]; [reflexivity|].
  simpl PyStr.splitlines_keep. destruct (Ascii.eqb c PyStr.LF).
  - rewrite Hc, IH. reflexivity.
  - destruct (PyStr.splitlines_keep s) as [|l ls].
    + simpl in IH. now subst s.
    + rewrite Hc in IH. rewrite Hc, append_cons, IH. reflexivity.
Qed.

Lemma splitlines_keep_lines q s :
  all_chars q s = true ->
  Forall (fun l => exists body,
            all_chars q body = true /\ all_chars not_lf body = true
            /\ line_of body l)
         (PyStr.splitlines_keep s).
Proof.
  induction s as [|c s IH]; intros Hq; [constructor|].
  simpl in Hq. apply andb_prop in Hq as [Hc Hs]. specialize (IH Hs).
  simpl PyStr.splitlines_keep. destruct (Ascii.eqb c PyStr.LF) eqn:E.
  - constructor; [|exact IH]. exists EmptyString.
    apply Ascii.eqb_eq in E. subst c. repeat split. now left.
  - assert (Hlf : not_lf c = true) by (unfold not_lf; now rewrite E).
    destruct (PyStr.splitlines_keep s) as [|l ls].
    + constructor; [|constructor]. exists (String c EmptyString). simpl.
      rewrite Hc, Hlf. repeat split. right. split; [reflexivity|discriminate].
    + inversion IH as [|? ? (body & Hb1 & Hb2 & Hl) Hrest]; subst.
      constructor; [|exact Hrest]. exists (String c body). simpl.
      rewrite Hc, Hlf, Hb1, Hb2. repeat split.
      destruct Hl as [->|[-> _]]; [now left|right].
      split; [reflexivity|discriminate].
Qed.

Lemma rstrip_keep p s :
  all_chars (fun c => negb (p c)) s = true -> PyStr.rstrip p s = s.
Proof.
  induction s as [|c s IH]; simpl; [reflexivity|].
  intros H. apply andb_prop in H as [Hc Hs]. rewrite (IH Hs).
  destruct s; [|reflexivity]. apply negb_true_iff in Hc. now rewrite Hc.
Qed.

Lemma rstrip_snoc p s c :
  p c = true ->
  PyStr.rstrip p (s ++ String c EmptyString) = PyStr.rstrip p s.
Proof.
  intros Hc. induction s as [|a s IH].
  - simpl. now rewrite Hc.
  - rewrite append_cons. simpl. now rewrite IH.
Qed.

Lemma not_crlf_split s :
  all_chars not_cr s = true -> all_chars not_lf s = true ->
  all_chars not_crlf s = true.
Proof.
  induction s as [|c s IH]; simpl; [reflexivity|].
  intros H1 H2. apply andb_prop in H1 as [Hc1 Hs1].
  apply andb_prop in H2 as [Hc2 Hs2]. rewrite (IH Hs1 Hs2), andb_true_r.
  unfold not_crlf, PyStr.is_crlf, not_cr, not_lf in *.
  apply negb_true_iff in Hc1, Hc2. now rewrite Hc1, Hc2.
Qed.

(** [rstrip('\r\n')] of a line is its body. *)
Lemma rstrip_crlf_line body l :
  all_chars not_crlf body = true -> line_of body l ->
  PyStr.rstrip_crlf l = body.
Proof.
  intros Hb [->|[-> _]]; unfold PyStr.rstrip_crlf.
  - rewrite rstrip_snoc by reflexivity. now apply rstrip_keep.
  - now apply rstrip_keep.
Qed.

Lemma split_concat sep s :
  String.concat (String sep EmptyString) (PyStr.split sep s) = s.
Proof.
  induction s as [|c s IH]; [reflexivity|].
  simpl PyStr.split. destruct (Ascii.eqb c sep) eqn:E.
  - apply Ascii.eqb_eq in E. subst c.
    destruct (PyStr.split sep s) as [|tok rest] eqn:Es.
    + now apply split_nonempty in Es.
    + change (String.concat (String sep EmptyString) (EmptyString :: tok :: rest))
        with (String sep (String.concat (String sep EmptyString) (tok :: rest))).
      now rewrite IH.
  - destruct (PyStr.split sep s) as [|tok rest] eqn:Es.
    + now apply split_nonempty in Es.
    + destruct rest as [|tok' rest].
      * simpl in *. now subst s.
      * change (String.concat (String sep EmptyString) (String c tok :: tok' :: rest))
          with (String c (String.concat (String sep EmptyString) (tok :: tok' :: rest))).
        now rewrite IH.
Qed.

Lemma split_tokens_free sep s :
  Forall (fun tok => PyStr.count sep tok = 0%nat) (PyStr.split sep s).
Proof.
  induction s as [|c s IH]; simpl; [now repeat constructor|].
  destruct (Ascii.eqb c sep) eqn:E.
  - constructor; [reflexivity|exact IH].
  - destruct (PyStr.split sep s) as [|tok rest]; inversion IH; subst;
      constructor; simpl; rewrite ?E; auto.
Qed.

(** ** Prompt loader *)

Lemma inline_branch_eq fs text :
  PyStr.endswith text ".txt" = false ->
  load_texts fs text
  = Ok (map (fun t => [PyStr.strip t]) (PyStr.split "," text) ++ [sentinel]).
Proof. intros H. unfold load_texts. now rewrite H. Qed.

Lemma file_branch_eq fs text :
  PyStr.endswith text ".txt" = true ->
  load_texts fs text
  = rbind (open_readlines fs text) (fun lines =>
      Ok (map (fun t => [PyStr.rstrip_crlf t]) lines ++ [sentinel])).
Proof. intros H. unfold load_texts. now rewrite H. Qed.

Lemma last_snoc {A} (l : list A) (x d : A) : List.last (l ++ [x]) d = x.
Proof. apply List.last_last. Qed.

(** C3: an inline text argument is split on commas, every token is
    stripped of surrounding whitespace and becomes one singleton group, and
    the sentinel group is appended, so the prompt set has one group more
    than there are comma-separated tokens and ends with the sentinel. *)
Theorem load_texts_inline (fs : filesystem) (text : string) :
  PyStr.endswith text ".txt" = false ->
  exists texts,
    load_texts fs text = Ok texts
    /\ texts = map (fun t => [PyStr.strip t]) (PyStr.split "," text) ++ [[" "]]
    /\ String.concat "," (PyStr.split "," text) = text
    /\ Forall (fun tok => PyStr.count "," tok = 0%nat) (PyStr.split "," text)
    /\ List.length (PyStr.split "," text) = S (PyStr.count "," text)
    /\ List.length texts = (List.length (PyStr.split "," text) + 1)%nat
    /\ List.last texts [] = [" "]
    /\ forall i tok, nth_error (PyStr.split "," text) i = Some tok ->
         nth_error texts i = Some [PyStr.strip tok]
         /\ exists pre post,
              tok = (pre ++ PyStr.strip tok ++ post)%string
              /\ all_chars PyStr.isspace pre = true
              /\ all_chars PyStr.isspace post = true
              /\ (forall c, first_char (PyStr.strip tok) = Some c ->
                    PyStr.isspace c = false)
              /\ (forall c, last_char (PyStr.strip tok) = Some c ->
                    PyStr.isspace c = false).
Proof.
  intros Hext. eexists. split; [apply (inline_branch_eq fs text Hext)|].
  split; [reflexivity|]. split; [apply split_concat|].
  split; [apply split_tokens_free|]. split; [apply split_length|].
  split; [now rewrite length_app, length_map|].
  split; [apply last_snoc|].
  intros i tok Hi. split; [|apply strip_spec].
  rewrite nth_error_app1.
  - now rewrite nth_error_map, Hi.
  - rewrite length_map. apply nth_error_Some. congruence.
Qed.

Lemma load_texts_inline_witness :
  exists texts,
    load_texts demo_fs " cat, dog ,," = Ok texts
    /\ texts = [["cat"]; ["dog"]; [EmptyString]; [EmptyString]; [" "]].
Proof.
  destruct (load_texts_inline demo_fs " cat, dog ,," eq_refl)
    as (texts & Hload & -> & _).
  eexists. split; [exact Hload|reflexivity].
Defined.

(** C7: for a text argument ending in [.txt] that names a readable file,
    the loader makes one group per line of the file, each holding the line
    without its terminator; an empty line gives the group of the empty
    string and is not dropped, so there are as many groups as lines, plus
    the sentinel. *)
Theorem load_texts_file (fs : filesystem) (text data : string) :
  PyStr.endswith text ".txt" = true ->
  fs !! text = Some (File data) ->
  exists lines texts,
    lines = PyStr.splitlines_keep (PyStr.universal_newlines data)
    /\ String.concat EmptyString lines = PyStr.universal_newlines data
    /\ load_texts fs text = Ok texts
    /\ texts = map (fun l => [PyStr.rstrip_crlf l]) lines ++ [[" "]]
    /\ List.length texts = (List.length lines + 1)%nat
    /\ Forall2 (fun l group =>
                  exists body, line_of body l
                               /\ all_chars not_crlf body = true
                               /\ group = [body])
               lines (List.removelast texts)
    /\ forall i, nth_error lines i = Some newline ->
                 nth_error texts i = Some [EmptyString].
Proof.
  intros Hext Hfile.
  exists (PyStr.splitlines_keep (PyStr.universal_newlines data)).
  eexists. split; [reflexivity|]. split; [apply splitlines_keep_concat|].
  split.
  { rewrite (file_branch_eq fs text Hext). unfold open_readlines.
    rewrite Hfile. reflexivity. }
  split; [reflexivity|]. split; [now rewrite length_app, length_map|].
  split.
  - rewrite List.removelast_last.
    pose proof (splitlines_keep_lines not_cr _ (universal_newlines_no_cr data))
      as Hlines.
    induction Hlines as [|l ls (body & Hcr & Hlf & Hl) _ IH]; simpl;
      constructor; [|exact IH].
    exists body. split; [exact Hl|].
    pose proof (not_crlf_split body Hcr Hlf) as Hb.
    split; [exact Hb|]. f_equal. now apply rstrip_crlf_line.
  - intros i Hi. rewrite nth_error_app1.
    + now rewrite nth_error_map, Hi.
    + rewrite length_map. apply nth_error_Some. congruence.
Qed.

Lemma load_texts_file_witness :
  exists lines texts,
    lines = ["cat" ++ newline; "dog" ++ newline; newline]%string
    /\ load_texts demo_fs "names.txt" = Ok texts
    /\ texts = [["cat"]; ["dog"]; [EmptyString]; [" "]].
Proof.
  destruct (load_texts_file demo_fs "names.txt" _ eq_refl eq_refl)
    as (lines & texts & -> & _ & Hload & -> & _).
  do 2 eexists. split; [reflexivity|]. split; [exact Hload|reflexivity].
Defined.

(** C10: whatever the branch, every group the loader produces holds
    exactly one string, and the last group is the single-space sentinel. *)
Theorem load_texts_singletons (fs : filesystem) (text : string)
    (texts : list (list string)) :
  load_texts fs text = Ok texts ->
  Forall (fun group => exists s, group = [s]) texts
  /\ exists front, texts = front ++ [[" "]].
Proof.
  unfold load_texts. destruct (PyStr.endswith text ".txt").
  - destruct (open_readlines fs text) as [lines|e]; simpl; [|discriminate].
    intros [= <-]. split; [|eauto].
    apply Forall_app. split; [|repeat constructor; eauto].
    apply Forall_map, Forall_forall. eauto.
  - intros [= <-]. split; [|eauto].
    apply Forall_app. split; [|repeat constructor; eauto].
    apply Forall_map, Forall_forall. eauto.
Qed.

Lemma load_texts_singletons_witness :
  (Forall (fun group => exists s : string, group = [s])
          [["cat"]; ["dog"]; [" "]]
   /\ exists front, [["cat"]; ["dog"]; [" "]] = front ++ [[" "]])
  /\ (Forall (fun group => exists s : string, group = [s])
             [["cat"]; ["dog"]; [EmptyString]; [" "]]
      /\ exists front,
           [["cat"]; ["dog"]; [EmptyString]; [" "]] = front ++ [[" "]]).
Proof.
  split.
  - exact (load_texts_singletons demo_fs "cat,dog" _ eq_refl).
  - exact (load_texts_singletons demo_fs "names.txt" _ eq_refl).
Defined.





(** ** Image list *)

Lemma png_or_jpg_spec name :
  is_png_or_jpg name = true
  <-> (exists stem, name = (stem ++ ".png")%string)
      \/ (exists stem, name = (stem ++ ".jpg")%string).
Proof.
  unfold is_png_or_jpg. rewrite orb_true_iff, !endswith_spec. reflexivity.
Qed.

(** C5: an image argument that is an existing regular file is the whole
    job list, whatever its extension.  Any other argument is listed as a
    directory, and the jobs are the entries of that directory whose names
    end in [.png] or [.jpg], in listing order, each joined to the
    directory; entries with any other ending, upper-case ones included,
    and entries of sub-directories are not jobs. *)
Theorem resolve_images_spec (fs : filesystem) (img : string) :
  (isfile fs img = true -> resolve_images fs img = Ok [img])
  /\ (isfile fs img = false ->
      forall names, listdir fs img = Ok names ->
        exists jobs,
          resolve_images fs img = Ok jobs
          /\ jobs = map (PosixPath.join img) (List.filter is_png_or_jpg names)
          /\ forall p, In p jobs <->
               exists name, In name names
                 /\ ((exists stem, name = (stem ++ ".png")%string)
                     \/ (exists stem, name = (stem ++ ".jpg")%string))
                 /\ p = PosixPath.join img name).
Proof.
  unfold resolve_images. split; intros Hf; rewrite Hf; simpl; [reflexivity|].
  intros names Hl. rewrite Hl. simpl. eexists. split; [reflexivity|].
  split; [reflexivity|]. intros p. rewrite in_map_iff. split.
  - intros (name & <- & Hin). apply filter_In in Hin as [Hin Hext].
    exists name. split; [exact Hin|]. split; [|reflexivity].
    now apply png_or_jpg_spec.
  - intros (name & Hin & Hext & ->). exists name. split; [reflexivity|].
    apply filter_In. split; [exact Hin|]. now apply png_or_jpg_spec.
Qed.

Lemma resolve_images_spec_witness :
  resolve_images demo_fs "scan.tiff" = Ok ["scan.tiff"]
  /\ exists jobs,
       resolve_images demo_fs "imgs" = Ok jobs
       /\ jobs = ["imgs/a.png"; "imgs/b.jpg"].
Proof.
  destruct (resolve_images_spec demo_fs "scan.tiff") as [Hfile _].
  destruct (resolve_images_spec demo_fs "imgs") as [_ Hdir].
  split; [exact (Hfile eq_refl)|].
  destruct (Hdir eq_refl _ eq_refl) as (jobs & Hjobs & -> & _).
  eexists. split; [exact Hjobs|reflexivity].
Defined.

(** ** Threshold and top-k *)

Lemma Qgtb_spec (a b : Q) : Qgtb a b = true <-> (b < a)%Q.
Proof.
  unfold Qgtb. rewrite negb_true_iff. split.
  - intros H. apply Qnot_le_lt. intros Hle.
    apply Qle_bool_iff in Hle. congruence.
  - intros H. destruct (Qle_bool a b) eqn:E; [|reflexivity].
    apply Qle_bool_iff in E. now apply Qlt_not_le in H.
Qed.

Lemma threshold_In (t : Q) (raw : list Instance) (i : Instance) :
  In i (threshold t raw) <-> In i raw /\ (t < scores i)%Q.
Proof. unfold threshold. now rewrite filter_In, Qgtb_spec. Qed.

Lemma index_select_Forall2 {A} (l : list A) idx out :
  index_select l idx = Ok out ->
  Forall2 (fun i x => nth_error l i = Some x) idx out.
Proof.
  unfold index_select. revert out.
  induction idx as [|i idx IH]; simpl; intros out H.
  - injection H as <-. constructor.
  - destruct (nth_error l i) as [x|] eqn:Ei; simpl in H; [|discriminate].
    destruct (rmap_list _ idx) as [ys|e]; simpl in H; [|discriminate].
    injection H as <-. constructor; auto.
Qed.

Lemma index_select_total {A} (l : list A) idx :
  (forall i, In i idx -> (i < List.length l)%nat) ->
  exists out, index_select l idx = Ok out.
Proof.
  unfold index_select. induction idx as [|i idx IH]; simpl; intros H.
  - eauto.
  - destruct (nth_error l i) as [x|] eqn:Ei.
    + destruct IH as [ys Hys]; [auto|]. rewrite Hys. simpl. eauto.
    + apply nth_error_None in Ei. specialize (H i (or_introl eq_refl)). lia.
Qed.

Lemma Forall2_In_r {A B} (R : A -> B -> Prop) la lb b :
  Forall2 R la lb -> In b lb -> exists a, In a la /\ R a b.
Proof.
  induction 1 as [|a' b' la lb HR _ IH]; simpl; [tauto|].
  intros [<-|Hin]; [eauto|]. destruct (IH Hin) as (a & Ha & HRa). eauto.
Qed.

Lemma Forall2_length_eq {A B} (R : A -> B -> Prop) la lb :
  Forall2 R la lb -> List.length la = List.length lb.
Proof. induction 1; simpl; congruence. Qed.

Lemma nth_map_scores (pred : list Instance) j i :
  nth_error pred j = Some i -> nth j (map scores pred) 0%Q = scores i.
Proof.
  intros H. apply nth_error_nth. now apply map_nth_error.
Qed.

Lemma postprocess_sub `{TorchTopk} raw k t out :
  postprocess raw k t = Ok out ->
  forall i, In i out -> In i (threshold t raw).
Proof.
  unfold postprocess.
  destruct (Z.of_nat _ >? k)%Z.
  - destruct (tensor_topk _ k) as [idx|e]; simpl; [|discriminate].
    intros Hsel i Hin. apply index_select_Forall2 in Hsel.
    destruct (Forall2_In_r _ _ _ _ Hsel Hin) as (j & _ & Hj).
    eapply nth_error_In, Hj.
  - now intros [= <-].
Qed.

Lemma to_detections_In pred d :
  In d (to_detections pred) <->
  exists i, In i pred /\ d = mkDetection (bboxes i) (labels i) (scores i).
Proof.
  unfold to_detections. rewrite in_map_iff. split; intros (i & H1 & H2); eauto.
Qed.


(** *** The computing top-k meets the promise of [torch.topk] *)

Lemma insert_desc_perm x l : Permutation (insert_desc x l) (x :: l).
Proof.
  induction l as [|y l IH]; simpl; [reflexivity|].
  destruct (Qle_bool (snd y) (snd x)); [reflexivity|].
  rewrite IH. apply perm_swap.
Qed.

Lemma sort_desc_perm l : Permutation (sort_desc l) l.
Proof.
  induction l as [|x l IH]; simpl; [reflexivity|].
  rewrite insert_desc_perm. now constructor.
Qed.

Lemma insert_desc_sorted x l :
  StronglySorted desc l -> StronglySorted desc (insert_desc x l).
Proof.
  induction l as [|y l IH]; simpl; intros Hs.
  - repeat constructor.
  - apply StronglySorted_inv in Hs as [Hl Hy].
    destruct (Qle_bool (snd y) (snd x)) eqn:E.
    + apply Qle_bool_iff in E. constructor; [now constructor|].
      constructor; [exact E|].
      eapply List.Forall_impl; [|exact Hy]. intros z Hz. unfold desc in *.
      now apply Qle_trans with (snd y).
    + constructor; [auto|].
      apply List.Forall_forall. intros z Hz.
      apply (Permutation_in _ (insert_desc_perm x l)) in Hz as [<-|Hz].
      * unfold desc. apply Qlt_le_weak, Qnot_le_lt. intros Hle.
        apply Qle_bool_iff in Hle. congruence.
      * eapply List.Forall_forall in Hy; eauto.
Qed.

Lemma sort_desc_sorted l : StronglySorted desc (sort_desc l).
Proof.
  induction l as [|x l IH]; simpl; [constructor|now apply insert_desc_sorted].
Qed.

Lemma sorted_app_desc (l1 l2 : list (nat * Q)) :
  StronglySorted desc (l1 ++ l2) ->
  forall x y, In x l1 -> In y l2 -> desc x y.
Proof.
  induction l1 as [|a l1 IH]; simpl; intros Hs x y Hx Hy; [tauto|].
  apply StronglySorted_inv in Hs as [Hs Ha]. destruct Hx as [<-|Hx].
  - eapply List.Forall_forall in Ha; [exact Ha|]. apply in_or_app. now right.
  - now apply IH.
Qed.

Lemma combine_seq_nth (s : list Q) a i q :
  In (i, q) (combine (seq a (List.length s)) s) ->
  (a <= i)%nat /\ nth (i - a) s 0%Q = q.
Proof.
  revert a. induction s as [|x s IH]; simpl; intros a; [tauto|].
  intros [[= <- <-]|Hin].
  - split; [lia|]. now rewrite Nat.sub_diag.
  - apply IH in Hin as [Hle Hq]. split; [lia|].
    replace (i - a)%nat with (S (i - S a)) by lia. exact Hq.
Qed.

Lemma combine_seq_fst (s : list Q) a :
  map fst (combine (seq a (List.length s)) s) = seq a (List.length s).
Proof.
  revert a. induction s as [|x s IH]; simpl; intros a; [reflexivity|].
  now rewrite IH.
Qed.

Lemma stable_topk_spec (s : list Q) (k : nat) :
  (k <= List.length s)%nat -> topk_spec s k (stable_topk s k).
Proof.
  intros Hk. unfold stable_topk.
  set (pairs := combine (seq 0 (List.length s)) s).
  pose proof (sort_desc_perm pairs) as Hperm.
  pose proof (sort_desc_sorted pairs) as Hsorted.
  assert (Hfst : Permutation (map fst (sort_desc pairs)) (seq 0 (List.length s))).
  { rewrite Hperm. unfold pairs. now rewrite combine_seq_fst. }
  assert (Hlen : List.length (sort_desc pairs) = List.length s).
  { rewrite <- (length_map fst), (Permutation_length Hfst). apply length_seq. }
  assert (Hnd : List.NoDup (map fst (sort_desc pairs))).
  { eapply Permutation_NoDup; [symmetry; exact Hfst|apply seq_NoDup]. }
  rewrite <- (firstn_skipn k (sort_desc pairs)) in Hsorted, Hnd, Hfst.
  rewrite map_app in Hnd, Hfst.
  split.
  - rewrite length_map, firstn_length_le; [reflexivity|lia].
  - now apply NoDup_app_remove_r in Hnd.
  - intros i Hi.
    assert (Hin : In i (seq 0 (List.length s))).
    { eapply Permutation_in; [exact Hfst|]. apply in_or_app. now left. }
    apply in_seq in Hin. lia.
  - intros i j Hi Hj Hlt.
    assert (Hjs : In j (map fst (skipn k (sort_desc pairs)))).
    { assert (Hin : In j (seq 0 (List.length s))) by (apply in_seq; lia).
      eapply Permutation_in in Hin; [|symmetry; exact Hfst].
      apply in_app_or in Hin as [Hin|Hin]; [contradiction|exact Hin]. }
    apply in_map_iff in Hi as ([i' qi] & Ei & Hi).
    apply in_map_iff in Hjs as ([j' qj] & Ej & Hjs). simpl in Ei, Ej. subst.
    pose proof (sorted_app_desc _ _ Hsorted _ _ Hi Hjs) as Hd.
    unfold desc in Hd. simpl in Hd.
    assert (Hpi : In (i, qi) pairs).
    { eapply Permutation_in; [exact Hperm|].
      rewrite <- (firstn_skipn k (sort_desc pairs)). apply in_or_app. now left. }
    assert (Hpj : In (j, qj) pairs).
    { eapply Permutation_in; [exact Hperm|].
      rewrite <- (firstn_skipn k (sort_desc pairs)). apply in_or_app. now right. }
    apply combine_seq_nth in Hpi as [_ Hqi], Hpj as [_ Hqj].
    rewrite Nat.sub_0_r in Hqi, Hqj. now rewrite Hqi, Hqj.
Qed.

Lemma demo_topk_contract : @topk_contract demo_topk.
Proof. intros s k Hk. apply stable_topk_spec, Hk. Qed.

(** C2: for a top-k limit that is not negative, post-processing returns a
    list no longer than the limit.  A thresholded list within the limit
    passes through unchanged.  A longer one is cut to exactly [k] instances
    taken from [k] distinct positions of it, and no instance left out has a
    higher score than one that was kept, whichever way torch orders equal
    scores. *)
Theorem postprocess_topk `{TorchTopk} (raw : list Instance) (k : Z) (t : Q) :
  topk_contract ->
  (0 <= k)%Z ->
  exists out,
    postprocess raw k t = Ok out
    /\ (Z.of_nat (List.length out) <= k)%Z
    /\ ((Z.of_nat (List.length (threshold t raw)) <= k)%Z ->
        out = threshold t raw)
    /\ ((k < Z.of_nat (List.length (threshold t raw)))%Z ->
        exists idx,
          Forall2 (fun i x => nth_error (threshold t raw) i = Some x) idx out
          /\ List.NoDup idx
          /\ List.length out = Z.to_nat k
          /\ forall j dropped kept,
               nth_error (threshold t raw) j = Some dropped -> ~ In j idx ->
               In kept out -> (scores dropped <= scores kept)%Q).
Proof.
  intros Hc Hk. unfold postprocess.
  set (pred := threshold t raw). rewrite length_map.
  destruct (Z.of_nat (List.length pred) >? k)%Z eqn:Hgt.
  - apply Z.gtb_lt in Hgt. unfold tensor_topk. rewrite length_map.
    replace (k <? 0)%Z with false by (symmetry; apply Z.ltb_ge; lia).
    replace (Z.of_nat (List.length pred) <? k)%Z with false
      by (symmetry; apply Z.ltb_ge; lia).
    simpl.
    destruct (Hc (map scores pred) (Z.to_nat k)) as [Hlen Hnd Hrange Hbig].
    { rewrite length_map. lia. }
    rewrite length_map in Hrange, Hbig.
    destruct (index_select_total pred _ Hrange) as [out Hout].
    exists out. split; [exact Hout|].
    pose proof (index_select_Forall2 _ _ _ Hout) as Hsel.
    pose proof (Forall2_length_eq _ _ _ Hsel) as Hl.
    split; [lia|]. split; [lia|]. intros _.
    exists (topk (map scores pred) (Z.to_nat k)).
    split; [exact Hsel|]. split; [exact Hnd|]. split; [lia|].
    intros j dropped kept Hj Hnot Hkept.
    destruct (Forall2_In_r _ _ _ _ Hsel Hkept) as (i & Hi & Hnth).
    rewrite <- (nth_map_scores pred j dropped Hj).
    rewrite <- (nth_map_scores pred i kept Hnth).
    apply Hbig; [exact Hi|exact Hnot|].
    apply nth_error_Some. congruence.
  - rewrite Z.gtb_ltb in Hgt. apply Z.ltb_ge in Hgt.
    exists pred. split; [reflexivity|]. split; [lia|].
    split; [reflexivity|lia].
Qed.

Lemma postprocess_topk_witness :
  exists out,
    @postprocess demo_topk demo_raw 2 (1 # 2) = Ok out
    /\ map scores out = [95 # 100; 9 # 10]
    /\ (Z.of_nat (List.length out) <= 2)%Z.
Proof.
  destruct (@postprocess_topk demo_topk demo_raw 2 (1 # 2) demo_topk_contract)
    as (out & Hout & Hlen & _); [lia|].
  exists out. split; [exact Hout|]. split; [|exact Hlen].
  assert (E : @postprocess demo_topk demo_raw 2 (1 # 2)
              = Ok [mkInstance (3, 3, 9, 9)%Q 0 (95 # 100);
                    mkInstance (0, 0, 10, 10)%Q 0 (9 # 10)])
    by reflexivity.
  rewrite E in Hout. now injection Hout as <-.
Defined.


(** ** Labels *)

Lemma py_index_nth {A} (l : list A) (i : Z) (x : A) :
  (0 <= i)%Z -> nth_error l (Z.to_nat i) = Some x -> py_index l i = Ok x.
Proof.
  intros Hi Hx.
  assert (E : (i <? 0)%Z = false) by (apply Z.ltb_ge; lia).
  unfold py_index. rewrite E. cbv zeta. now rewrite E, Hx.
Qed.

Lemma py_index_in_bounds {A} (l : list A) (i : Z) :
  (0 <= i < Z.of_nat (List.length l))%Z ->
  exists x, nth_error l (Z.to_nat i) = Some x /\ py_index l i = Ok x.
Proof.
  intros Hi. destruct (nth_error l (Z.to_nat i)) as [x|] eqn:E.
  - exists x. split; [reflexivity|]. apply py_index_nth; [lia|exact E].
  - apply nth_error_None in E. lia.
Qed.

Lemma label_of_nth texts d (name : string) rest :
  (0 <= class_id d)%Z ->
  nth_error texts (Z.to_nat (class_id d)) = Some (name :: rest) ->
  label_of texts d = Ok (name ++ " " ++ format_2f (confidence d))%string.
Proof.
  intros Hc Hg. unfold label_of. now rewrite (py_index_nth _ _ _ Hc Hg).
Qed.

Lemma rmap_list_Forall2 {A B} (f : A -> result B) l out :
  rmap_list f l = Ok out -> Forall2 (fun x y => f x = Ok y) l out.
Proof.
  revert out. induction l as [|x l IH]; simpl; intros out H.
  - injection H as <-. constructor.
  - destruct (f x) as [y|e] eqn:Ex; simpl in H; [|discriminate].
    destruct (rmap_list f l) as [ys|e]; simpl in H; [|discriminate].
    injection H as <-. constructor; auto.
Qed.

Lemma rmap_list_total {A B} (f : A -> result B) l :
  (forall x, In x l -> exists y, f x = Ok y) ->
  exists out, rmap_list f l = Ok out.
Proof.
  induction l as [|x l IH]; simpl; intros H; [eauto|].
  destruct (H x (or_introl eq_refl)) as [y ->].
  destruct IH as [ys ->]; [auto|]. simpl. eauto.
Qed.

(** The two decimals printed are those of the nearest hundredth. *)
Lemma round_half_even_nearest (q : Q) :
  (0 <= Qnum q)%Z ->
  (2 * Z.abs (Qnum q - round_half_even q * Z.pos (Qden q)) <= Z.pos (Qden q))%Z.
Proof.
  intros Hq. unfold round_half_even.
  pose proof (Z.div_mod (Qnum q) (Z.pos (Qden q)) ltac:(lia)) as Hdm.
  pose proof (Z.mod_pos_bound (Qnum q) (Z.pos (Qden q)) ltac:(lia)) as Hm.
  set (d := Z.pos (Qden q)) in *. set (fl := (Qnum q / d)%Z) in *.
  set (r := (Qnum q mod d)%Z) in *.
  destruct (2 * r <? d)%Z eqn:E1; [apply Z.ltb_lt in E1; lia|].
  apply Z.ltb_ge in E1.
  destruct (d <? 2 * r)%Z eqn:E2; [apply Z.ltb_lt in E2; lia|].
  apply Z.ltb_ge in E2. destruct (Z.even fl); lia.
Qed.

(** C4: the label of a detection is the first string of the prompt group
    at its class index, a space, and its confidence printed with two
    decimals (the nearest hundredth); the labels are rendered detection by
    detection.  With the text [cat,dog] the prompt set is
    [[cat], [dog], [ ]] and a detection of class 1 and confidence 0.73
    gets the label [dog 0.73]. *)
Theorem label_of_format :
  (forall texts d (name : string) rest,
     (0 <= class_id d)%Z ->
     nth_error texts (Z.to_nat (class_id d)) = Some (name :: rest) ->
     label_of texts d = Ok (name ++ " " ++ format_2f (confidence d))%string)
  /\ (forall texts dets ls,
        render_labels texts dets = Ok ls ->
        Forall2 (fun d l => label_of texts d = Ok l) dets ls)
  /\ (forall s : Q,
        let x := (Qabs s * 100)%Q in
        let h := round_half_even x in
        (2 * Z.abs (Qnum x - h * Z.pos (Qden x)) <= Z.pos (Qden x))%Z
        /\ format_2f s
           = ((if Qle_bool 0 s then EmptyString else "-")
              ++ NilZero.string_of_uint (N.to_uint (Z.to_N (h / 100)))
              ++ "."
              ++ String (digit ((h / 10) mod 10))
                   (String (digit (h mod 10)) EmptyString))%string)
  /\ (forall fs box,
        load_texts fs "cat,dog" = Ok [["cat"]; ["dog"]; [" "]]
        /\ label_of [["cat"]; ["dog"]; [" "]] (mkDetection box 1 (73 # 100))
           = Ok "dog 0.73").
Proof.
  split; [exact label_of_nth|]. split.
  { intros texts dets ls H. now apply rmap_list_Forall2. }
  split.
  { intros s x h. split; [|reflexivity].
    apply round_half_even_nearest. unfold x. destruct s as [n d]. simpl. lia. }
  intros fs box. split; reflexivity.
Qed.

Lemma label_of_format_witness :
  label_of [["cat"]; ["dog"]; [" "]]
    (mkDetection (0, 0, 4, 4)%Q 1 (12247368 # 16777216))
  = Ok "dog 0.73".
Proof.
  destruct label_of_format as (Hlabel & _).
  exact (Hlabel [["cat"]; ["dog"]; [" "]]
           (mkDetection (0, 0, 4, 4)%Q 1 (12247368 # 16777216))
           "dog" [] ltac:(simpl; lia) eq_refl).
Defined.

(** C9: when every instance the detector returns has a class index that
    is an index into the prompt set, so has every detection that survives
    post-processing; with prompt groups that are not empty, both look-ups
    of [texts[class_id][0]] then succeed for each of them and rendering the
    labels raises no [IndexError]. *)
Theorem labels_in_bounds `{TorchTopk} (texts : list (list string))
    (raw : list Instance) (k : Z) (t : Q) (out : list Instance) :
  (forall i, In i raw -> (0 <= labels i < Z.of_nat (List.length texts))%Z) ->
  Forall (fun group => group <> []) texts ->
  postprocess raw k t = Ok out ->
  (forall d, In d (to_detections out) ->
     (0 <= class_id d < Z.of_nat (List.length texts))%Z
     /\ exists (name : string) rest,
          py_index texts (class_id d) = Ok (name :: rest)
          /\ py_index (name :: rest) 0 = Ok name
          /\ label_of texts d
             = Ok (name ++ " " ++ format_2f (confidence d))%string)
  /\ exists ls,
       render_labels texts (to_detections out) = Ok ls
       /\ List.length ls = List.length out.
Proof.
  intros Hraw Hgroups Hpost.
  assert (Hdet : forall d, In d (to_detections out) ->
            (0 <= class_id d < Z.of_nat (List.length texts))%Z
            /\ exists (name : string) rest,
                 py_index texts (class_id d) = Ok (name :: rest)
                 /\ py_index (name :: rest) 0 = Ok name
                 /\ label_of texts d
                    = Ok (name ++ " " ++ format_2f (confidence d))%string).
  { intros d Hd. apply to_detections_In in Hd as (i & Hi & ->). simpl.
    apply (postprocess_sub _ _ _ _ Hpost), threshold_In in Hi as [Hi _].
    specialize (Hraw i Hi). split; [exact Hraw|].
    destruct (py_index_in_bounds texts (labels i) Hraw) as (group & Hn & Hp).
    destruct group as [|name rest].
    - apply nth_error_In in Hn.
      eapply List.Forall_forall in Hgroups; [|exact Hn]. congruence.
    - exists name, rest. split; [exact Hp|]. split; [reflexivity|].
      apply (label_of_nth texts
               (mkDetection (bboxes i) (labels i) (scores i)) name rest);
        [simpl; lia|exact Hn]. }
  split; [exact Hdet|].
  destruct (rmap_list_total (label_of texts) (to_detections out)) as [ls Hls].
  { intros d Hd. destruct (Hdet d Hd) as (_ & name & rest & _ & _ & Hl). eauto. }
  exists ls. split; [exact Hls|].
  apply rmap_list_Forall2, Forall2_length_eq in Hls.
  unfold to_detections in Hls. now rewrite length_map in Hls.
Qed.

Lemma labels_in_bounds_witness :
  exists ls,
    render_labels [["cat"]; ["dog"]; [" "]]
      (to_detections [mkInstance (3, 3, 9, 9)%Q 0 (95 # 100);
                      mkInstance (0, 0, 10, 10)%Q 0 (9 # 10)]) = Ok ls
    /\ List.length ls = 2%nat.
Proof.
  refine (proj2 (@labels_in_bounds demo_topk [["cat"]; ["dog"]; [" "]]
                   demo_raw 2 (1 # 2) _ _ _ eq_refl)).
  - intros i Hi. simpl in Hi.
    repeat (destruct Hi as [<-|Hi]; [simpl; lia|]). contradiction.
  - repeat constructor; discriminate.
Defined.

(** ** Writing the annotated image *)

Lemma inference_detector_eq `{TorchTopk} `{Collaborators}
    image_path texts max_dets score_thr output_dir use_amp show fs :
  inference_detector image_path texts max_dets score_thr output_dir
    use_amp show fs
  = match annotated_image image_path texts max_dets score_thr use_amp fs with
    | Raise e => (fs, Raise e)
    | Ok img =>
        match imencode (output_path output_dir image_path) img with
        | Raise e => (fs, Raise e)
        | Ok data =>
            (<[output_path output_dir image_path := File data]> fs,
             if show then show_image img else Ok tt)
        end
    end.
Proof.
  unfold inference_detector, annotated_image, output_path, bind, lift,
    predict, cv2_imread, cv2_imwrite, reading, ret.
  destruct (runner_predict use_amp fs image_path texts) as [raw|e];
    simpl; [|reflexivity].
  destruct (postprocess raw max_dets score_thr) as [pred|e];
    simpl; [|reflexivity].
  destruct (render_labels texts (to_detections pred)) as [ls|e];
    simpl; [|reflexivity].
  destruct (box_annotate _ (to_detections pred)) as [im1|e];
    simpl; [|reflexivity].
  destruct (label_annotate im1 (to_detections pred) ls) as [im2|e];
    simpl; [|reflexivity].
  destruct (imencode _ im2) as [data|e]; [|reflexivity].
  destruct show; reflexivity.
Qed.





(** ** The definitions on small inputs *)

Example split_examples :
  PyStr.split "," "cat,dog" = ["cat"; "dog"]
  /\ PyStr.split "," EmptyString = [EmptyString]
  /\ PyStr.split "," "a,,b," = ["a"; EmptyString; "b"; EmptyString].
Proof. repeat split. Qed.

Example strip_examples :
  PyStr.strip "  a b " = "a b" /\ PyStr.strip "   " = EmptyString.
Proof. split; reflexivity. Qed.

Example endswith_examples :
  PyStr.endswith "a.txt" ".txt" = true
  /\ PyStr.endswith "txt" ".txt" = false
  /\ is_png_or_jpg "C.PNG" = false
  /\ is_png_or_jpg "b.jpg" = true
  /\ is_png_or_jpg "b.jpeg" = false.
Proof. repeat split. Qed.

Example readlines_examples :
  PyStr.splitlines_keep
    (PyStr.universal_newlines
       (String "a" (String PyStr.CR (String PyStr.LF (String PyStr.CR "b")))))
  = [String "a" newline; newline; "b"]
  /\ PyStr.rstrip_crlf (String "a" newline) = "a"
  /\ PyStr.rstrip_crlf newline = EmptyString.
Proof. repeat split. Qed.

Example path_examples :
  PosixPath.basename "a/b/c.png" = "c.png"
  /\ PosixPath.basename "c.png" = "c.png"
  /\ PosixPath.join "demo_outputs" "c.png" = "demo_outputs/c.png"
  /\ PosixPath.join "imgs/" "c.png" = "imgs/c.png"
  /\ PosixPath.join EmptyString "c.png" = "c.png".
Proof. repeat split. Qed.

Example format_2f_examples :
  format_2f (73 # 100) = "0.73"
  /\ format_2f (1 # 8) = "0.12"
  /\ format_2f (3 # 8) = "0.38"
  /\ format_2f (1999 # 1000) = "2.00"
  /\ format_2f 1 = "1.00".
Proof. repeat split. Qed.

(** A negative class index counts from the end of the prompt set, and
    raises once it passes the front. *)
Example py_index_negative :
  py_index [["cat"]; ["dog"]; [" "]] (-1) = Ok [" "]
  /\ py_index [["cat"]; ["dog"]; [" "]] (-4) = Raise IndexError
  /\ py_index [["cat"]; ["dog"]; [" "]] 3 = Raise IndexError.
Proof. repeat split. Qed.

(** A negative top-k limit makes torch reject the call. *)
Example postprocess_negative_topk :
  @postprocess demo_topk demo_raw (-1) 0 = Raise RuntimeError.
Proof. reflexivity. Qed.

Example resolve_images_missing :
  resolve_images demo_fs "nowhere" = Raise OSError.
Proof. reflexivity. Qed.

(** * Further properties of the script *)

(** ** Post-processing *)

Lemma postprocess_cases `{TorchTopk} raw k t out :
  postprocess raw k t = Ok out ->
  ((Z.of_nat (List.length (threshold t raw)) <= k)%Z /\ out = threshold t raw)
  \/ ((0 <= k < Z.of_nat (List.length (threshold t raw)))%Z
      /\ index_select (threshold t raw)
           (topk (map scores (threshold t raw)) (Z.to_nat k)) = Ok out).
Proof.
  unfold postprocess, tensor_topk. rewrite length_map.
  destruct (Z.of_nat _ >? k)%Z eqn:Hgt.
  - apply Z.gtb_lt in Hgt.
    destruct (k <? 0)%Z eqn:Hneg; simpl; [discriminate|].
    apply Z.ltb_ge in Hneg.
    destruct (Z.of_nat _ <? k)%Z; simpl; [discriminate|].
    intros Hsel. right. split; [lia|exact Hsel].
  - rewrite Z.gtb_ltb in Hgt. apply Z.ltb_ge in Hgt.
    intros [= <-]. left. split; [lia|reflexivity].
Qed.

(** X1: a negative top-k limit is fatal for every image.  The comparison
    [len > max_dets] then holds even for an empty list, torch rejects the
    [k], and [inference_detector] stops before it writes anything. *)
Theorem negative_topk_aborts `{TorchTopk} `{Collaborators} (k : Z) :
  (k < 0)%Z ->
  (forall raw t, postprocess raw k t = Raise RuntimeError)
  /\ (forall image_path texts t output_dir use_amp show fs,
        exists e,
          inference_detector image_path texts k t output_dir use_amp show fs
          = (fs, Raise e)
          /\ forall raw, runner_predict use_amp fs image_path texts = Ok raw ->
                         e = RuntimeError).
Proof.
  intros Hk.
  assert (Hpost : forall raw t, postprocess raw k t = Raise RuntimeError).
  { intros raw t. unfold postprocess, tensor_topk.
    replace (Z.of_nat _ >? k)%Z with true by (symmetry; apply Z.gtb_lt; lia).
    replace (k <? 0)%Z with true by (symmetry; apply Z.ltb_lt; lia).
    reflexivity. }
  split; [exact Hpost|].
  intros image_path texts t output_dir use_amp show fs.
  rewrite inference_detector_eq. unfold annotated_image.
  destruct (runner_predict use_amp fs image_path texts) as [raw|e]; simpl.
  - rewrite Hpost. simpl. exists RuntimeError. split; [reflexivity|auto].
  - exists e. split; [reflexivity|]. discriminate.
Qed.

Lemma negative_topk_aborts_witness :
  @postprocess demo_topk [] (-1) 0 = Raise RuntimeError
  /\ exists e,
       @inference_detector demo_topk demo_collaborators "imgs/a.png"
         [["cat"]; [" "]] (-1) 0 "out" false false demo_fs
       = (demo_fs, Raise e).
Proof.
  destruct (@negative_topk_aborts demo_topk demo_collaborators (-1))
    as [Hpost Hrun]; [lia|].
  split; [apply Hpost|].
  destruct (Hrun "imgs/a.png" [["cat"]; [" "]] 0%Q "out" false false demo_fs)
    as (e & He & _).
  exists e. exact He.
Defined.

Lemma Qgtb_weaken (s t1 t2 : Q) :
  (t1 <= t2)%Q -> Qgtb s t2 = true -> Qgtb s t1 = true.
Proof.
  rewrite !Qgtb_spec. intros Hle Hlt. now apply Qle_lt_trans with t2.
Qed.

(** X2: thresholds compose.  Filtering at [t1] and then at a higher [t2],
    in either order, is filtering at [t2] alone, so raising the threshold
    can only remove detections. *)
Theorem threshold_compose (t1 t2 : Q) (raw : list Instance) :
  (t1 <= t2)%Q ->
  threshold t2 (threshold t1 raw) = threshold t2 raw
  /\ threshold t1 (threshold t2 raw) = threshold t2 raw
  /\ forall i, In i (threshold t2 raw) -> In i (threshold t1 raw).
Proof.
  intros Hle. unfold threshold. split; [|split].
  - induction raw as [|i raw IH]; simpl; [reflexivity|].
    destruct (Qgtb (scores i) t1) eqn:E1; simpl.
    + now rewrite IH.
    + destruct (Qgtb (scores i) t2) eqn:E2; [|exact IH].
      apply (Qgtb_weaken _ _ _ Hle) in E2. congruence.
  - induction raw as [|i raw IH]; simpl; [reflexivity|].
    destruct (Qgtb (scores i) t2) eqn:E2; simpl; [|exact IH].
    now rewrite (Qgtb_weaken _ _ _ Hle E2), IH.
  - intros i. rewrite !filter_In. intros [Hin Hgt].
    split; [exact Hin|]. now apply (Qgtb_weaken _ _ _ Hle).
Qed.

Lemma threshold_compose_witness :
  threshold (1 # 2) (threshold (1 # 10) demo_raw) = threshold (1 # 2) demo_raw
  /\ map scores (threshold (1 # 2) demo_raw) = [9 # 10; 6 # 10; 95 # 100].
Proof.
  split; [|reflexivity].
  apply (threshold_compose (1 # 10) (1 # 2) demo_raw). discriminate.
Defined.

Lemma filter_fixed {A} (f : A -> bool) (l : list A) :
  (forall x, In x l -> f x = true) -> List.filter f l = l.
Proof.
  induction l as [|x l IH]; simpl; intros Hall; [reflexivity|].
  rewrite (Hall x (or_introl eq_refl)), IH; auto.
Qed.

Lemma threshold_fixed t l :
  (forall i, In i l -> In i (threshold t l)) -> threshold t l = l.
Proof.
  intros Hall. apply filter_fixed. intros i Hi.
  apply Hall, filter_In in Hi. tauto.
Qed.

Lemma threshold_sub_fixed t raw out :
  (forall i, In i out -> In i (threshold t raw)) -> threshold t out = out.
Proof.
  intros Hsub. apply filter_fixed. intros i Hi.
  apply Hsub, filter_In in Hi. tauto.
Qed.

Lemma postprocess_passes `{TorchTopk} l k t :
  threshold t l = l -> (Z.of_nat (List.length l) <= k)%Z ->
  postprocess l k t = Ok l.
Proof.
  intros Hfix Hlen. unfold postprocess. rewrite Hfix, length_map.
  replace (Z.of_nat _ >? k)%Z with false; [reflexivity|].
  symmetry. rewrite Z.gtb_ltb. apply Z.ltb_ge. lia.
Qed.

(** X3: post-processing is idempotent.  When torch's top-k keeps its
    promise, feeding the output back with the same limit and threshold
    returns it unchanged: it is already above the threshold and within the
    limit. *)
Theorem postprocess_idempotent `{TorchTopk} (raw out : list Instance)
    (k : Z) (t : Q) :
  topk_contract ->
  postprocess raw k t = Ok out ->
  postprocess out k t = Ok out.
Proof.
  intros Hc Hpost.
  pose proof (threshold_sub_fixed t raw out (postprocess_sub _ _ _ _ Hpost))
    as Hfix.
  apply postprocess_passes; [exact Hfix|].
  apply postprocess_cases in Hpost as [[Hlen ->]|[Hk Hsel]]; [exact Hlen|].
  apply index_select_Forall2, Forall2_length_eq in Hsel.
  destruct (Hc (map scores (threshold t raw)) (Z.to_nat k)) as [Hlen _ _ _].
  { rewrite length_map. lia. }
  lia.
Qed.

Lemma postprocess_idempotent_witness :
  @postprocess demo_topk
    [mkInstance (3, 3, 9, 9)%Q 0 (95 # 100);
     mkInstance (0, 0, 10, 10)%Q 0 (9 # 10)] 2 (1 # 2)
  = Ok [mkInstance (3, 3, 9, 9)%Q 0 (95 # 100);
        mkInstance (0, 0, 10, 10)%Q 0 (9 # 10)].
Proof.
  exact (@postprocess_idempotent demo_topk demo_raw _ 2 (1 # 2)
           demo_topk_contract eq_refl).
Defined.

Lemma filter_sublist_of {A} (f : A -> bool) (l : list A) :
  List.filter f l `sublist_of` l.
Proof.
  induction l as [|x l IH]; simpl; [constructor|].
  destruct (f x); now constructor.
Qed.

Lemma select_as_map {A} (l : list A) (d : A) idx out :
  Forall2 (fun i x => nth_error l i = Some x) idx out ->
  out = map (fun i => nth i l d) idx.
Proof.
  induction 1 as [|i x idx out Hi _ IH]; simpl; [reflexivity|].
  now rewrite (nth_error_nth _ _ d Hi), IH.
Qed.

Lemma map_nth_seq {A} (l : list A) (d : A) :
  map (fun i => nth i l d) (seq 0 (List.length l)) = l.
Proof.
  induction l as [|x l IH]; simpl; [reflexivity|].
  now rewrite <- seq_shift, map_map, IH.
Qed.

Lemma Forall2_In_l {A B} (R : A -> B -> Prop) la lb a :
  Forall2 R la lb -> In a la -> exists b, In b lb /\ R a b.
Proof.
  induction 1 as [|a' b' la lb HR _ IH]; simpl; [tauto|].
  intros [<-|Hin]; [eauto|]. destruct (IH Hin) as (b & Hb & HRb). eauto.
Qed.

Lemma select_submseteq {A} (l : list A) idx out :
  List.NoDup idx ->
  Forall2 (fun i x => nth_error l i = Some x) idx out ->
  out ⊆+ l.
Proof.
  intros Hnd Hsel. destruct l as [|d l'] eqn:El.
  - destruct Hsel as [|i x idx out Hi _]; [reflexivity|].
    now destruct i.
  - rewrite <- El in *. clear El l'.
    rewrite (select_as_map l d idx out Hsel).
    pose proof (map_nth_seq l d) as E.
    set (f := fun i => nth i l d) in *. rewrite <- E.
    apply (fmap_submseteq f).
    apply NoDup_submseteq; [now apply NoDup_ListNoDup|].
    intros i Hi. apply list_elem_of_In in Hi. apply list_elem_of_In, in_seq.
    destruct (Forall2_In_l _ _ _ i Hsel Hi) as (x & _ & Hx).
    split; [lia|]. simpl. apply nth_error_Some. congruence.
Qed.

(** X4: post-processing neither invents nor duplicates an instance: its
    output is a sub-multiset of the detector's instances, and when nothing
    is cut it keeps them in the detector's order. *)
Theorem postprocess_submultiset `{TorchTopk} (raw out : list Instance)
    (k : Z) (t : Q) :
  topk_contract ->
  postprocess raw k t = Ok out ->
  out ⊆+ raw
  /\ ((Z.of_nat (List.length (threshold t raw)) <= k)%Z ->
      out `sublist_of` raw).
Proof.
  intros Hc Hpost.
  pose proof (filter_sublist_of (fun i => Qgtb (scores i) t) raw) as Hsub.
  fold (threshold t raw) in Hsub.
  apply postprocess_cases in Hpost as [[Hlen ->]|[Hk Hsel]].
  - split; [now apply sublist_submseteq|auto].
  - split; [|lia].
    destruct (Hc (map scores (threshold t raw)) (Z.to_nat k)) as [_ Hnd _ _].
    { rewrite length_map. lia. }
    transitivity (threshold t raw); [|now apply sublist_submseteq].
    eapply select_submseteq; [exact Hnd|].
    now apply index_select_Forall2.
Qed.

Lemma postprocess_submultiset_witness :
  [mkInstance (3, 3, 9, 9)%Q 0 (95 # 100);
   mkInstance (0, 0, 10, 10)%Q 0 (9 # 10)] ⊆+ demo_raw.
Proof.
  exact (proj1 (@postprocess_submultiset demo_topk demo_raw _ 2 (1 # 2)
                  demo_topk_contract eq_refl)).
Defined.

(** ** Prompt loader: round trips *)

Lemma split_free sep s : PyStr.count sep s = 0%nat -> PyStr.split sep s = [s].
Proof.
  induction s as [|c s IH]; simpl; [reflexivity|].
  destruct (Ascii.eqb c sep); [discriminate|]. simpl.
  intros Hs. now rewrite (IH Hs).
Qed.

Lemma split_app_sep sep a b :
  PyStr.count sep a = 0%nat ->
  PyStr.split sep (a ++ String sep b) = a :: PyStr.split sep b.
Proof.
  induction a as [|c a IH]; simpl.
  - intros _. now rewrite Ascii.eqb_refl.
  - destruct (Ascii.eqb c sep) eqn:E; [discriminate|]. simpl. intros Ha.
    now rewrite (IH Ha).
Qed.

Lemma split_of_concat sep names :
  names <> [] ->
  Forall (fun n => PyStr.count sep n = 0%nat) names ->
  PyStr.split sep (String.concat (String sep EmptyString) names) = names.
Proof.
  intros Hne Hall. induction Hall as [|n names Hn Hall IH]; [congruence|].
  destruct names as [|m names].
  - simpl. now apply split_free.
  - change (String.concat (String sep EmptyString) (n :: m :: names))
      with (n ++ String sep (String.concat (String sep EmptyString) (m :: names)))%string.
    rewrite (split_app_sep _ _ _ Hn), IH; [reflexivity|discriminate].
Qed.

Lemma string_app_assoc (a b c : string) :
  ((a ++ b) ++ c)%string = (a ++ (b ++ c))%string.
Proof.
  induction a as [|x a IH]; [reflexivity|].
  now rewrite !append_cons, IH.
Qed.

Lemma string_app_empty_r (a : string) : (a ++ EmptyString)%string = a.
Proof.
  induction a as [|x a IH]; [reflexivity|]. now rewrite append_cons, IH.
Qed.

Lemma count_app c (a b : string) :
  PyStr.count c (a ++ b) = (PyStr.count c a + PyStr.count c b)%nat.
Proof.
  induction a as [|x a IH]; [reflexivity|].
  rewrite append_cons. simpl. rewrite IH. lia.
Qed.

Lemma lstrip_pad p pre s :
  all_chars p pre = true -> PyStr.lstrip p (pre ++ s) = PyStr.lstrip p s.
Proof.
  induction pre as [|c pre IH]; [reflexivity|].
  rewrite all_chars_cons, append_cons. intros H.
  apply andb_prop in H as [Hc Hpre]. simpl. now rewrite Hc, (IH Hpre).
Qed.

Lemma rstrip_pad p s post :
  all_chars p post = true -> PyStr.rstrip p (s ++ post) = PyStr.rstrip p s.
Proof.
  revert s. induction post as [|c post IH]; intros s.
  - now rewrite string_app_empty_r.
  - rewrite all_chars_cons. intros H. apply andb_prop in H as [Hc Hpost].
    change (String c post) with (String c EmptyString ++ post)%string.
    now rewrite <- string_app_assoc, (IH _ Hpost), (rstrip_snoc _ _ _ Hc).
Qed.

Lemma rstrip_last p s :
  (forall c, last_char s = Some c -> p c = false) -> PyStr.rstrip p s = s.
Proof.
  induction s as [|a s IH]; [reflexivity|]. simpl. intros Hlast.
  destruct s as [|b s].
  - simpl in *. now rewrite (Hlast a eq_refl).
  - rewrite IH; [reflexivity|]. intros c Hc. apply Hlast.
    now rewrite Hc.
Qed.

Lemma strip_padded row :
  all_chars PyStr.isspace (fst (fst row)) = true ->
  all_chars PyStr.isspace (snd row) = true ->
  trimmed (snd (fst row)) = true ->
  PyStr.strip (padded row) = snd (fst row).
Proof.
  destruct row as [[pre n] post]. unfold padded, trimmed, PyStr.strip. simpl.
  intros Hpre Hpost Hn. apply andb_prop in Hn as [Hfirst Hlast].
  rewrite (lstrip_pad _ _ _ Hpre).
  destruct n as [|c n].
  - rewrite append_nil.
    rewrite <- (string_app_empty_r post), (lstrip_pad _ _ _ Hpost).
    reflexivity.
  - simpl in Hfirst. apply negb_true_iff in Hfirst.
    rewrite append_cons. simpl PyStr.lstrip. rewrite Hfirst.
    rewrite <- append_cons, (rstrip_pad _ _ _ Hpost).
    apply rstrip_last. intros d Hd. rewrite Hd in Hlast.
    now apply negb_true_iff in Hlast.
Qed.

Lemma whitespace_no_comma s :
  all_chars PyStr.isspace s = true -> PyStr.count "," s = 0%nat.
Proof.
  induction s as [|c s IH]; [reflexivity|].
  rewrite all_chars_cons. intros H. apply andb_prop in H as [Hc Hs].
  simpl. rewrite (IH Hs).
  destruct (Ascii.eqb_spec c ","); [subst c; discriminate|reflexivity].
Qed.

(** X5: loading an inline text is the inverse of joining prompts with
    commas, and whitespace around a prompt is irrelevant.  For a non-empty
    list of prompts without commas or surrounding whitespace, each
    written between two runs of whitespace, the loader returns exactly
    these prompts, one group each, and the sentinel, unless the joined
    text ends in [.txt]. *)
Theorem load_texts_inline_roundtrip (fs : filesystem)
    (rows : list (string * string * string)) :
  rows <> [] ->
  Forall (fun row =>
            all_chars PyStr.isspace (fst (fst row)) = true
            /\ all_chars PyStr.isspace (snd row) = true
            /\ PyStr.count "," (snd (fst row)) = 0%nat
            /\ trimmed (snd (fst row)) = true) rows ->
  PyStr.endswith (String.concat "," (map padded rows)) ".txt" = false ->
  load_texts fs (String.concat "," (map padded rows))
  = Ok (map (fun row => [snd (fst row)]) rows ++ [[" "]]).
Proof.
  intros Hne Hall Hext. rewrite (inline_branch_eq _ _ Hext).
  rewrite split_of_concat.
  - rewrite map_map. do 2 f_equal. apply map_ext_in. intros row Hrow.
    eapply List.Forall_forall in Hall; [|exact Hrow].
    destruct Hall as (Hpre & Hpost & _ & Htrim).
    now rewrite strip_padded.
  - now destruct rows.
  - apply List.Forall_forall. intros tok Htok.
    apply in_map_iff in Htok as (row & <- & Hrow).
    eapply List.Forall_forall in Hall; [|exact Hrow].
    destruct Hall as (Hpre & Hpost & Hn & _). unfold padded.
    rewrite !count_app, Hn.
    now rewrite (whitespace_no_comma _ Hpre), (whitespace_no_comma _ Hpost).
Qed.

Lemma load_texts_inline_roundtrip_witness :
  load_texts demo_fs "traffic light, fire hydrant ,dog"
  = Ok [["traffic light"]; ["fire hydrant"]; ["dog"]; [" "]].
Proof.
  apply (load_texts_inline_roundtrip demo_fs
           [(EmptyString, "traffic light", EmptyString);
            (" ", "fire hydrant", " ");
            (EmptyString, "dog", EmptyString)]).
  - discriminate.
  - repeat constructor.
  - reflexivity.
Defined.

Lemma not_crlf_parts s :
  all_chars not_crlf s = true ->
  all_chars not_cr s = true /\ all_chars not_lf s = true.
Proof.
  induction s as [|c s IH]; simpl; [auto|].
  intros H. apply andb_prop in H as [Hc Hs]. destruct (IH Hs) as [-> ->].
  unfold not_crlf, PyStr.is_crlf in Hc. apply negb_true_iff in Hc.
  apply orb_false_elim in Hc as [H1 H2]. unfold not_cr, not_lf.
  now rewrite H1, H2.
Qed.

Lemma universal_newlines_cons c s :
  Ascii.eqb c PyStr.CR = false ->
  PyStr.universal_newlines (String c s) = String c (PyStr.universal_newlines s).
Proof. intros H. simpl. now rewrite H. Qed.

Lemma universal_newlines_body b s :
  all_chars not_cr b = true ->
  PyStr.universal_newlines (b ++ s) = (b ++ PyStr.universal_newlines s)%string.
Proof.
  induction b as [|c b IH]; [reflexivity|].
  rewrite all_chars_cons. intros H. apply andb_prop in H as [Hc Hb].
  apply negb_true_iff in Hc.
  now rewrite !append_cons, (universal_newlines_cons _ _ Hc), (IH Hb).
Qed.

Lemma universal_newlines_fixed s :
  all_chars not_cr s = true -> PyStr.universal_newlines s = s.
Proof.
  induction s as [|c s IH]; [reflexivity|].
  rewrite all_chars_cons. intros H. apply andb_prop in H as [Hc Hs].
  apply negb_true_iff in Hc.
  now rewrite (universal_newlines_cons _ _ Hc), (IH Hs).
Qed.

Lemma universal_newlines_terminator (w : bool) s :
  PyStr.universal_newlines ((if w then CRLF else newline) ++ s)
  = String PyStr.LF (PyStr.universal_newlines s).
Proof. destruct w; reflexivity. Qed.

Lemma splitlines_keep_line b s :
  all_chars not_lf b = true ->
  PyStr.splitlines_keep (b ++ String PyStr.LF s)
  = (b ++ newline)%string :: PyStr.splitlines_keep s.
Proof.
  induction b as [|c b IH]; [reflexivity|].
  rewrite all_chars_cons. intros H. apply andb_prop in H as [Hc Hb].
  apply negb_true_iff in Hc. rewrite !append_cons.
  simpl PyStr.splitlines_keep. now rewrite Hc, (IH Hb).
Qed.

Lemma splitlines_keep_tail s :
  all_chars not_lf s = true ->
  PyStr.splitlines_keep s = if String.eqb s EmptyString then [] else [s].
Proof.
  induction s as [|c s IH]; [reflexivity|].
  rewrite all_chars_cons. intros H. apply andb_prop in H as [Hc Hs].
  apply negb_true_iff in Hc. simpl PyStr.splitlines_keep.
  rewrite Hc, (IH Hs). now destruct s.
Qed.

Lemma readlines_file_text rows tail :
  Forall (fun row => all_chars not_crlf (fst row) = true) rows ->
  all_chars not_crlf tail = true ->
  PyStr.splitlines_keep (PyStr.universal_newlines (file_text rows tail))
  = map (fun row => (fst row ++ newline)%string) rows
    ++ (if String.eqb tail EmptyString then [] else [tail]).
Proof.
  intros Hrows Htail. apply not_crlf_parts in Htail as [Hcr Hlf].
  induction Hrows as [|[b w] rows Hb _ IH]; simpl.
  - rewrite (universal_newlines_fixed _ Hcr). now apply splitlines_keep_tail.
  - simpl in Hb. apply not_crlf_parts in Hb as [Hbcr Hblf].
    rewrite (universal_newlines_body _ _ Hbcr), universal_newlines_terminator.
    now rewrite (splitlines_keep_line _ _ Hblf), IH.
Qed.

(** X6: loading a prompt file is the inverse of writing prompts one per
    line.  For prompts free of CR and LF, each ended by LF or by CR LF,
    and an optional last prompt left unterminated, the loader returns
    exactly these prompts, one group each, and the sentinel; the kind of
    line ending and a missing final newline make no difference. *)
Theorem load_texts_file_roundtrip (fs : filesystem) (text : string)
    (rows : list (string * bool)) (tail : string) :
  PyStr.endswith text ".txt" = true ->
  fs !! text = Some (File (file_text rows tail)) ->
  Forall (fun row => all_chars not_crlf (fst row) = true) rows ->
  all_chars not_crlf tail = true ->
  load_texts fs text
  = Ok (map (fun row => [fst row]) rows
        ++ (if String.eqb tail EmptyString then [] else [[tail]])
        ++ [[" "]]).
Proof.
  intros Hext Hfile Hrows Htail.
  rewrite (file_branch_eq _ _ Hext). unfold open_readlines. rewrite Hfile.
  simpl rbind. rewrite (readlines_file_text _ _ Hrows Htail).
  rewrite map_app, map_map, <- app_assoc. do 2 f_equal.
  - apply map_ext_in. intros [b w] Hin. simpl. f_equal.
    eapply List.Forall_forall in Hrows; [|exact Hin]. simpl in Hrows.
    apply (rstrip_crlf_line b); [exact Hrows|now left].
  - f_equal. destruct (String.eqb tail EmptyString) eqn:E; [reflexivity|].
    simpl. do 2 f_equal. apply (rstrip_crlf_line tail); [exact Htail|].
    right. split; [reflexivity|]. intros ->. discriminate.
Qed.

Lemma load_texts_file_roundtrip_witness :
  load_texts
    (<["classes.txt" :=
         File (file_text [("person", true); (EmptyString, false);
                          ("traffic light", false)] "dog")]> demo_fs)
    "classes.txt"
  = Ok [["person"]; [EmptyString]; ["traffic light"]; ["dog"]; [" "]].
Proof.
  apply (load_texts_file_roundtrip _ "classes.txt"
           [("person", true); (EmptyString, false); ("traffic light", false)]
           "dog").
  - reflexivity.
  - apply lookup_insert_eq.
  - repeat constructor.
  - reflexivity.
Defined.

(** ** Output paths *)



Lemma prefix_app (a b : string) : String.prefix a (a ++ b) = true.
Proof.
  induction a as [|x a IH]; [now destruct b|].
  rewrite append_cons. simpl. destruct (ascii_dec x x); [exact IH|congruence].
Qed.

Lemma last_cons_nonempty {A} (x : A) l d :
  l <> [] -> List.last (x :: l) d = List.last l d.
Proof. destruct l; [congruence|reflexivity]. Qed.

(** Appending text without the separator extends the last token. *)
Lemma split_app_free sep a b :
  PyStr.count sep b = 0%nat ->
  List.last (PyStr.split sep (a ++ b)) EmptyString
  = (List.last (PyStr.split sep a) EmptyString ++ b)%string.
Proof.
  intros Hb. induction a as [|c a IH].
  - rewrite append_nil, (split_free _ _ Hb). reflexivity.
  - rewrite append_cons. simpl PyStr.split.
    destruct (Ascii.eqb c sep).
    + rewrite !last_cons_nonempty by apply split_nonempty. exact IH.
    + destruct (PyStr.split sep (a ++ b)) as [|t1 r1] eqn:E1;
        [now apply split_nonempty in E1|].
      destruct (PyStr.split sep a) as [|t2 r2] eqn:E2;
        [now apply split_nonempty in E2|].
      destruct r1 as [|x1 r1], r2 as [|x2 r2]; simpl in IH |- *.
      * now rewrite append_cons, IH.
      * pose proof (f_equal (@List.length string) E1) as L1.
        pose proof (f_equal (@List.length string) E2) as L2.
        rewrite split_length in L1, L2. simpl in L1, L2.
        assert (Hc : PyStr.count sep (a ++ b) = PyStr.count sep a).
        { clear -Hb. induction a as [|y a IHa]; [exact Hb|].
          rewrite append_cons. simpl. now rewrite IHa. }
        lia.
      * pose proof (f_equal (@List.length string) E1) as L1.
        pose proof (f_equal (@List.length string) E2) as L2.
        rewrite split_length in L1, L2. simpl in L1, L2.
        assert (Hc : PyStr.count sep (a ++ b) = PyStr.count sep a).
        { clear -Hb. induction a as [|y a IHa]; [exact Hb|].
          rewrite append_cons. simpl. now rewrite IHa. }
        lia.
      * exact IH.
Qed.

Lemma split_last_after_sep sep a :
  List.last (PyStr.split sep (a ++ String sep EmptyString)) EmptyString
  = EmptyString.
Proof.
  induction a as [|c a IH].
  - simpl. now rewrite Ascii.eqb_refl.
  - rewrite append_cons. simpl PyStr.split. destruct (Ascii.eqb c sep).
    + rewrite last_cons_nonempty by apply split_nonempty. exact IH.
    + destruct (PyStr.split sep (a ++ String sep EmptyString))
        as [|t r] eqn:E; [now apply split_nonempty in E|].
      destruct r as [|x r]; [|exact IH].
      pose proof (f_equal (@List.length string) E) as L.
      rewrite split_length in L. simpl in L.
      assert (Hc : forall s, PyStr.count sep (s ++ String sep EmptyString)
                             = S (PyStr.count sep s)).
      { clear. induction s as [|y s IHs]; simpl.
        - now rewrite Ascii.eqb_refl.
        - rewrite IHs. lia. }
      rewrite Hc in L. lia.
Qed.

Lemma basename_free p :
  PyStr.count "/" (PosixPath.basename p) = 0%nat.
Proof.
  unfold PosixPath.basename.
  pose proof (split_tokens_free "/" p) as Hall.
  destruct (exists_last (split_nonempty "/" p)) as (front & tok & E).
  rewrite E in *. rewrite last_snoc.
  apply Forall_app in Hall as [_ Hall]. now inversion Hall.
Qed.

Lemma free_not_absolute n :
  PyStr.count "/" n = 0%nat -> PyStr.startswith n "/" = false.
Proof.
  destruct n as [|c n]; [reflexivity|]. intros Hc.
  unfold PyStr.startswith.
  change (String.prefix "/" (String c n))
    with (if ascii_dec "/" c then String.prefix EmptyString n else false).
  destruct (ascii_dec "/" c) as [<-|]; [discriminate|reflexivity].
Qed.

(** [join] with a relative name only ever appends to the directory. *)
Lemma join_free d n :
  PyStr.count "/" n = 0%nat ->
  PosixPath.join d n
  = (if String.eqb d EmptyString || PyStr.endswith d "/" then d ++ n
     else d ++ "/" ++ n)%string.
Proof.
  intros Hn. unfold PosixPath.join. now rewrite (free_not_absolute _ Hn).
Qed.

Lemma basename_join d n :
  PyStr.count "/" n = 0%nat -> PosixPath.basename (PosixPath.join d n) = n.
Proof.
  intros Hn. rewrite (join_free _ _ Hn). unfold PosixPath.basename.
  destruct (String.eqb d EmptyString) eqn:Ed; simpl.
  - apply String.eqb_eq in Ed. subst d.
    now rewrite append_nil, (split_free _ _ Hn).
  - destruct (PyStr.endswith d "/") eqn:Es.
    + apply endswith_spec in Es as [pre ->].
      now rewrite (split_app_free _ _ _ Hn), split_last_after_sep.
    + change (d ++ "/" ++ n)%string with (d ++ (String "/" EmptyString ++ n))%string.
      rewrite <- string_app_assoc.
      now rewrite (split_app_free _ _ _ Hn), split_last_after_sep.
Qed.

(** X7: the annotated image always lands directly in the output
    directory.  The base name of the source path holds no slash, so the
    output path is the output directory, one separating slash unless the
    directory is empty or already ends with one, and that base name; the
    directories of the source path never show in it. *)
Theorem output_path_inside (output_dir image_path : string) :
  PyStr.count "/" (PosixPath.basename image_path) = 0%nat
  /\ output_path output_dir image_path
     = (if String.eqb output_dir EmptyString || PyStr.endswith output_dir "/"
        then output_dir ++ PosixPath.basename image_path
        else output_dir ++ "/" ++ PosixPath.basename image_path)%string
  /\ String.prefix output_dir (output_path output_dir image_path) = true.
Proof.
  pose proof (basename_free image_path) as Hfree.
  split; [exact Hfree|]. unfold output_path.
  rewrite (join_free _ _ Hfree). split; [reflexivity|].
  destruct (_ || _); apply prefix_app.
Qed.

Lemma join_free_inj d n m :
  PyStr.count "/" n = 0%nat -> PyStr.count "/" m = 0%nat ->
  PosixPath.join d n = PosixPath.join d m -> n = m.
Proof.
  intros Hn Hm. rewrite (join_free _ _ Hn), (join_free _ _ Hm).
  destruct (_ || _); intros E.
  - now apply (inj (String.app d)) in E.
  - apply (inj (String.app d)) in E. now apply (inj (String.app "/")) in E.
Qed.

Lemma resolve_images_dir fs img names :
  isfile fs img = false -> listdir fs img = Ok names ->
  resolve_images fs img
  = Ok (map (PosixPath.join img) (List.filter is_png_or_jpg names)).
Proof. intros Hf Hl. unfold resolve_images. now rewrite Hf, Hl. Qed.

Lemma directory_output_paths output_dir img names :
  Forall (fun n => PyStr.count "/" n = 0%nat) names ->
  map (output_path output_dir) (map (PosixPath.join img) names)
  = map (PosixPath.join output_dir) names.
Proof.
  intros Hall. rewrite map_map. apply map_ext_in. intros n Hn.
  eapply List.Forall_forall in Hall; [|exact Hn].
  unfold output_path. now rewrite (basename_join _ _ Hall).
Qed.

Lemma Forall_filter_keep {A} (P : A -> Prop) f (l : list A) :
  Forall P l -> Forall P (List.filter f l).
Proof.
  intros H. apply List.Forall_forall. intros x Hx.
  apply filter_In in Hx as [Hx _]. eapply List.Forall_forall in H; eauto.
Qed.

(** X8: in directory mode no two images share an output file.  For a
    directory whose entries are distinct plain names, each job is written
    under the name of its entry, and the output paths of the job list are
    pairwise distinct. *)
Theorem directory_outputs_distinct (fs : filesystem)
    (img output_dir : string) (names : list string) :
  isfile fs img = false ->
  listdir fs img = Ok names ->
  Forall (fun n => PyStr.count "/" n = 0%nat) names ->
  List.NoDup names ->
  exists jobs,
    resolve_images fs img = Ok jobs
    /\ map (output_path output_dir) jobs
       = map (PosixPath.join output_dir) (List.filter is_png_or_jpg names)
    /\ List.NoDup (map (output_path output_dir) jobs).
Proof.
  intros Hf Hl Hfree Hnd. eexists.
  split; [apply (resolve_images_dir _ _ _ Hf Hl)|].
  pose proof (Forall_filter_keep _ is_png_or_jpg _ Hfree) as Hfree'.
  rewrite (directory_output_paths _ _ _ Hfree'). split; [reflexivity|].
  apply NoDup_map_NoDup_ForallPairs; [|now apply List.NoDup_filter].
  intros n m Hn Hm E.
  eapply List.Forall_forall in Hn; [|exact Hfree'].
  eapply List.Forall_forall in Hm; [|exact Hfree'].
  exact (join_free_inj _ _ _ Hn Hm E).
Qed.

Lemma directory_outputs_distinct_witness :
  exists jobs,
    resolve_images demo_fs "imgs" = Ok jobs
    /\ map (output_path "demo_outputs") jobs
       = ["demo_outputs/a.png"; "demo_outputs/b.jpg"]
    /\ List.NoDup (map (output_path "demo_outputs") jobs).
Proof.
  destruct (directory_outputs_distinct demo_fs "imgs" "demo_outputs"
              ["a.png"; "notes.md"; "b.jpg"; "C.PNG"; "sub"]
              eq_refl eq_refl)
    as (jobs & Hjobs & Hout & Hnd).
  - repeat constructor.
  - repeat constructor; simpl; intuition discriminate.
  - exists jobs. split; [exact Hjobs|]. split; [exact Hout|exact Hnd].
Defined.

Lemma join_keeps_suffix d n suf :
  PyStr.count "/" n = 0%nat ->
  PyStr.endswith n suf = true -> PyStr.endswith (PosixPath.join d n) suf = true.
Proof.
  intros Hn Hs. rewrite (join_free _ _ Hn).
  apply endswith_spec in Hs as [pre ->].
  destruct (_ || _).
  - rewrite <- string_app_assoc. apply endswith_app.
  - rewrite <- !string_app_assoc. apply endswith_app.
Qed.

(** X9: in directory mode every output file keeps a [.png] or [.jpg]
    ending, so the writer always gets one of these two extensions. *)
Theorem directory_outputs_keep_extension (fs : filesystem)
    (img output_dir : string) (names : list string) :
  isfile fs img = false ->
  listdir fs img = Ok names ->
  Forall (fun n => PyStr.count "/" n = 0%nat) names ->
  exists jobs,
    resolve_images fs img = Ok jobs
    /\ Forall (fun out => is_png_or_jpg out = true)
              (map (output_path output_dir) jobs).
Proof.
  intros Hf Hl Hfree. eexists.
  split; [apply (resolve_images_dir _ _ _ Hf Hl)|].
  pose proof (Forall_filter_keep _ is_png_or_jpg _ Hfree) as Hfree'.
  rewrite (directory_output_paths _ _ _ Hfree').
  apply List.Forall_forall. intros out Hout.
  apply in_map_iff in Hout as (n & <- & Hn).
  pose proof Hn as Hext. apply filter_In in Hext as [_ Hext].
  eapply List.Forall_forall in Hfree'; [|exact Hn].
  unfold is_png_or_jpg in *. apply orb_true_iff in Hext.
  apply orb_true_iff. destruct Hext as [Hext|Hext]; [left|right];
    now apply join_keeps_suffix.
Qed.

Lemma directory_outputs_keep_extension_witness :
  exists jobs,
    resolve_images demo_fs "imgs" = Ok jobs
    /\ Forall (fun out => is_png_or_jpg out = true)
              (map (output_path "demo_outputs/") jobs).
Proof.
  apply (directory_outputs_keep_extension demo_fs "imgs" "demo_outputs/"
           ["a.png"; "notes.md"; "b.jpg"; "C.PNG"; "sub"] eq_refl eq_refl).
  repeat constructor.
Defined.

(** ** The loop over the images *)

Lemma process_images_app `{TorchTopk} `{Collaborators}
    l1 l2 texts max_dets score_thr output_dir use_amp show fs :
  process_images (l1 ++ l2) texts max_dets score_thr output_dir use_amp show fs
  = match process_images l1 texts max_dets score_thr output_dir use_amp show fs
    with
    | (fs1, Ok _) =>
        process_images l2 texts max_dets score_thr output_dir use_amp show fs1
    | (fs1, Raise e) => (fs1, Raise e)
    end.
Proof.
  revert fs. induction l1 as [|p l1 IH]; intros fs; [reflexivity|].
  simpl. unfold bind.
  destruct (inference_detector p texts max_dets score_thr output_dir
              use_amp show fs) as [fs1 [[]|e]]; [apply IH|reflexivity].
Qed.

(** X10: the loop is fail-fast.  When the images before [p] went through
    and the call for [p] raises, the whole run stops with that exception
    in the file system that call left: the earlier outputs stay written
    and no later image is looked at, whatever the rest of the list is. *)
Theorem process_images_fail_fast `{TorchTopk} `{Collaborators}
    (before rest : list string) (p : string) (texts : list (list string))
    (max_dets : Z) (score_thr : Q) (output_dir : string)
    (use_amp show : bool) (fs fs1 fs2 : filesystem) (e : exn) :
  process_images before texts max_dets score_thr output_dir use_amp show fs
  = (fs1, Ok tt) ->
  inference_detector p texts max_dets score_thr output_dir use_amp show fs1
  = (fs2, Raise e) ->
  process_images (before ++ p :: rest) texts max_dets score_thr output_dir
    use_amp show fs
  = (fs2, Raise e).
Proof.
  intros Hbefore Hp. rewrite process_images_app, Hbefore.
  simpl. unfold bind. now rewrite Hp.
Qed.

Lemma process_images_fail_fast_witness :
  @process_images demo_topk demo_collaborators
    ["imgs/a.png"; "imgs/missing.png"; "imgs/b.jpg"]
    [["cat"]; ["dog"]; [" "]] 2 (1 # 2) "out" false false demo_fs
  = (<["out/a.png" := File "A+boxes+cat 0.95,cat 0.90"]> demo_fs,
     Raise OSError).
Proof.
  apply (@process_images_fail_fast demo_topk demo_collaborators
           ["imgs/a.png"] ["imgs/b.jpg"] "imgs/missing.png"
           [["cat"]; ["dog"]; [" "]] 2 (1 # 2) "out" false false demo_fs
           (<["out/a.png" := File "A+boxes+cat 0.95,cat 0.90"]> demo_fs)).
  - vm_compute. reflexivity.
  - vm_compute. reflexivity.
Defined.










(** X13: edge cases of the image argument.  A path that is neither a file
    nor a directory makes the run raise [OSError] before any detection; a
    directory without a [.png] or [.jpg] entry gives an empty job list and
    the run completes without writing; an existing file is processed by a
    single call of [inference_detector]. *)
Theorem run_on_images_edge_cases `{TorchTopk} `{Collaborators}
    (img : string) (texts : list (list string)) (max_dets : Z)
    (score_thr : Q) (output_dir : string) (use_amp show : bool)
    (fs : filesystem) :
  (fs !! img = None ->
   run_on_images img texts max_dets score_thr output_dir use_amp show fs
   = (fs, Raise OSError))
  /\ (forall names,
        fs !! img = Some (Dir names) ->
        Forall (fun n => is_png_or_jpg n = false) names ->
        run_on_images img texts max_dets score_thr output_dir use_amp show fs
        = (fs, Ok tt))
  /\ (forall data,
        fs !! img = Some (File data) ->
        run_on_images img texts max_dets score_thr output_dir use_amp show fs
        = match inference_detector img texts max_dets score_thr output_dir
                  use_amp show fs with
          | (fs', Ok _) => (fs', Ok tt)
          | (fs', Raise e) => (fs', Raise e)
          end).
Proof.
  unfold run_on_images, bind, resolve_images, isfile, listdir.
  split; [|split].
  - intros ->. reflexivity.
  - intros names -> Hnone. simpl.
    replace (List.filter is_png_or_jpg names) with (@nil string); [reflexivity|].
    symmetry. induction Hnone as [|n names Hn _ IH]; simpl; [reflexivity|].
    now rewrite Hn.
  - intros data ->. simpl. unfold bind.
    now destruct (inference_detector _ _ _ _ _ _ _ fs) as [fs' [[]|e]].
Qed.

Lemma run_on_images_edge_cases_witness :
  @run_on_images demo_topk demo_collaborators "nowhere"
    [["cat"]; [" "]] 100 0 "out" false false demo_fs
  = (demo_fs, Raise OSError)
  /\ @run_on_images demo_topk demo_collaborators "imgs/sub2"
       [["cat"]; [" "]] 100 0 "out" false false
       (<["imgs/sub2" := Dir ["readme.md"; "x.PNG"]]> demo_fs)
     = (<["imgs/sub2" := Dir ["readme.md"; "x.PNG"]]> demo_fs, Ok tt).
Proof.
  split.
  - apply (@run_on_images_edge_cases demo_topk demo_collaborators "nowhere").
    reflexivity.
  - refine (proj1 (proj2 (@run_on_images_edge_cases demo_topk
              demo_collaborators "imgs/sub2" [["cat"]; [" "]] 100 0 "out"
              false false _)) ["readme.md"; "x.PNG"] _ _).
    + apply lookup_insert_eq.
    + repeat constructor.
Defined.

(** ** Label text *)

(** X14: a confidence between 0 and 1 is printed with exactly four
    characters, one digit, a point and two digits, and the number they
    spell is within half a hundredth of the confidence. *)
Theorem format_2f_probability (q : Q) :
  (0 <= q)%Q -> (q <= 1)%Q ->
  exists a b c : Z,
    (0 <= a <= 1)%Z /\ (0 <= b <= 9)%Z /\ (0 <= c <= 9)%Z
    /\ format_2f q
       = String (digit a) (String "." (String (digit b)
           (String (digit c) EmptyString)))
    /\ (2 * Z.abs (100 * Qnum q - (100 * a + 10 * b + c) * Z.pos (Qden q))
        <= Z.pos (Qden q))%Z.
Proof.
  destruct q as [n d]. unfold Qle. simpl. intros H0 H1.
  assert (Hn : (0 <= n <= Z.pos d)%Z) by lia. clear H0 H1.
  pose proof (round_half_even_nearest (Qabs (n # d) * 100)) as Hnear.
  unfold format_2f.
  set (h := round_half_even (Qabs (n # d) * 100)) in *.
  simpl in Hnear. rewrite Pos.mul_1_r in Hnear.
  rewrite (Z.abs_eq n) in Hnear by lia. specialize (Hnear ltac:(lia)).
  assert (Hh : (0 <= h <= 100)%Z) by nia.
  exists (h / 100)%Z, ((h / 10) mod 10)%Z, (h mod 10)%Z.
  split; [Z.to_euclidean_division_equations; lia|].
  split; [Z.to_euclidean_division_equations; lia|].
  split; [Z.to_euclidean_division_equations; lia|].
  split.
  - replace (Qle_bool 0 (n # d)) with true
      by (symmetry; apply Qle_bool_iff; unfold Qle; simpl; lia).
    assert (Ha : (h / 100 = 0 \/ h / 100 = 1)%Z)
      by (Z.to_euclidean_division_equations; lia).
    destruct Ha as [-> | ->]; reflexivity.
  - replace (100 * (h / 100) + 10 * ((h / 10) mod 10) + h mod 10)%Z with h
      by (Z.to_euclidean_division_equations; lia).
    replace (100 * n)%Z with (n * 100)%Z by lia. exact Hnear.
Qed.

Lemma format_2f_probability_witness :
  exists a b c : Z,
    (0 <= a <= 1)%Z /\ (0 <= b <= 9)%Z /\ (0 <= c <= 9)%Z
    /\ format_2f (12247368 # 16777216)
       = String (digit a) (String "." (String (digit b)
           (String (digit c) EmptyString)))
    /\ (2 * Z.abs (100 * 12247368 - (100 * a + 10 * b + c) * 16777216)
        <= 16777216)%Z.
Proof.
  apply (format_2f_probability (12247368 # 16777216)); discriminate.
Defined.

Lemma py_index_wraps {A} (l : list A) (i : Z) :
  (- Z.of_nat (List.length l) <= i < Z.of_nat (List.length l))%Z ->
  exists x,
    nth_error l (Z.to_nat (i mod Z.of_nat (List.length l))) = Some x
    /\ py_index l i = Ok x.
Proof.
  intros Hi. set (n := Z.of_nat (List.length l)) in *.
  assert (Hj : (0 <= i mod n < n)%Z) by (apply Z.mod_pos_bound; lia).
  destruct (nth_error l (Z.to_nat (i mod n))) as [x|] eqn:E.
  - exists x. split; [reflexivity|]. unfold py_index. fold n.
    destruct (i <? 0)%Z eqn:Hneg.
    + apply Z.ltb_lt in Hneg.
      assert (Hm : (i mod n = i + n)%Z).
      { symmetry. apply (Z.mod_unique i n (-1)); lia. }
      rewrite Hm in E.
      replace (i + n <? 0)%Z with false by (symmetry; apply Z.ltb_ge; lia).
      now rewrite E.
    + apply Z.ltb_ge in Hneg. rewrite Z.mod_small in E by lia.
      replace (i <? 0)%Z with false by (symmetry; apply Z.ltb_ge; lia).
      now rewrite E.
  - apply nth_error_None in E. lia.
Qed.

Lemma py_index_out_of_range {A} (l : list A) (i : Z) :
  (i < - Z.of_nat (List.length l) \/ Z.of_nat (List.length l) <= i)%Z ->
  py_index l i = Raise IndexError.
Proof.
  intros Hi. unfold py_index. destruct (i <? 0)%Z eqn:Hneg.
  - apply Z.ltb_lt in Hneg.
    replace (i + Z.of_nat (List.length l) <? 0)%Z with true; [reflexivity|].
    symmetry. apply Z.ltb_lt. lia.
  - apply Z.ltb_ge in Hneg.
    replace (i <? 0)%Z with false by (symmetry; apply Z.ltb_ge; lia).
    destruct (nth_error l (Z.to_nat i)) eqn:E; [|reflexivity].
    assert (Hlt : (Z.to_nat i < List.length l)%nat)
      by (apply nth_error_Some; congruence).
    lia.
Qed.

(** X15: a negative class index counts from the end of the prompt set.
    For an index from [-len] up to [len - 1] and prompt groups that are
    not empty, the label is built from the group at the index modulo
    [len], so the index [-1] is labelled with the last group. *)
Theorem label_of_wraps (texts : list (list string)) (d : Detection) :
  Forall (fun group => group <> []) texts ->
  (- Z.of_nat (List.length texts) <= class_id d
   < Z.of_nat (List.length texts))%Z ->
  exists (name : string) rest,
    nth_error texts
      (Z.to_nat (class_id d mod Z.of_nat (List.length texts)))
    = Some (name :: rest)
    /\ label_of texts d
       = Ok (name ++ " " ++ format_2f (confidence d))%string.
Proof.
  intros Hgroups Hc.
  destruct (py_index_wraps texts (class_id d) Hc) as (group & Hn & Hp).
  destruct group as [|name rest].
  - apply nth_error_In in Hn.
    eapply List.Forall_forall in Hgroups; [|exact Hn]. congruence.
  - exists name, rest. split; [exact Hn|].
    unfold label_of. now rewrite Hp.
Qed.

Lemma label_of_wraps_witness :
  label_of [["cat"]; ["dog"]; [" "]] (mkDetection (0, 0, 1, 1)%Q (-2) (1 # 2))
  = Ok "dog 0.50".
Proof.
  destruct (label_of_wraps [["cat"]; ["dog"]; [" "]]
              (mkDetection (0, 0, 1, 1)%Q (-2) (1 # 2)))
    as (name & rest & Hn & Hl).
  - repeat constructor; discriminate.
  - simpl. lia.
  - simpl in Hn. injection Hn as <- <-. exact Hl.
Defined.

Lemma py_index_raises {A} (l : list A) i e :
  py_index l i = Raise e -> e = IndexError.
Proof.
  unfold py_index. cbv zeta.
  destruct (_ <? 0)%Z; [congruence|].
  destruct (nth_error l _); congruence.
Qed.

Lemma label_of_raises texts d e :
  label_of texts d = Raise e -> e = IndexError.
Proof.
  unfold label_of.
  destruct (py_index texts (class_id d)) as [group|e1] eqn:E1; simpl.
  - destruct (py_index group 0) as [name|e2] eqn:E2; simpl; [discriminate|].
    intros [= <-]. exact (py_index_raises _ _ _ E2).
  - intros [= <-]. exact (py_index_raises _ _ _ E1).
Qed.

Lemma rmap_list_raises {A B} (f : A -> result B) l x e :
  In x l -> f x = Raise e ->
  exists y e', In y l /\ f y = Raise e' /\ rmap_list f l = Raise e'.
Proof.
  induction l as [|a l IH]; simpl; [tauto|]. intros Hin Hx.
  destruct (f a) as [b|e0] eqn:Ea; simpl.
  - destruct Hin as [->|Hin]; [congruence|].
    destruct (IH Hin Hx) as (y & e' & Hy & Hfy & Hr).
    exists y, e'. rewrite Hr. auto.
  - exists a, e0. auto.
Qed.

(** X16: a class index outside the prompt set stops the image before
    anything is written.  When a detection that survives post-processing
    has a class index of [len] or more, or below [-len], rendering the
    labels raises [IndexError] and [inference_detector] leaves the file
    system untouched. *)
Theorem class_index_out_of_range `{TorchTopk} `{Collaborators}
    (image_path : string) (texts : list (list string)) (max_dets : Z)
    (score_thr : Q) (output_dir : string) (use_amp show : bool)
    (fs : filesystem) (raw out : list Instance) (i : Instance) :
  runner_predict use_amp fs image_path texts = Ok raw ->
  postprocess raw max_dets score_thr = Ok out ->
  In i out ->
  (labels i < - Z.of_nat (List.length texts)
   \/ Z.of_nat (List.length texts) <= labels i)%Z ->
  render_labels texts (to_detections out) = Raise IndexError
  /\ inference_detector image_path texts max_dets score_thr output_dir
       use_amp show fs
     = (fs, Raise IndexError).
Proof.
  intros Hraw Hpost Hin Hrange.
  assert (Hlabels : render_labels texts (to_detections out) = Raise IndexError).
  { destruct (rmap_list_raises (label_of texts) (to_detections out)
                (mkDetection (bboxes i) (labels i) (scores i)) IndexError)
      as (y & e' & _ & Hy & Hr).
    - apply to_detections_In. eauto.
    - unfold label_of. simpl. now rewrite (py_index_out_of_range _ _ Hrange).
    - apply label_of_raises in Hy. subst e'. exact Hr. }
  split; [exact Hlabels|].
  rewrite inference_detector_eq. unfold annotated_image.
  rewrite Hraw. simpl. rewrite Hpost. simpl. now rewrite Hlabels.
Qed.

Lemma class_index_out_of_range_witness :
  @inference_detector demo_topk demo_collaborators "imgs/a.png"
    [["cat"]] 100 0 "out" false false demo_fs
  = (demo_fs, Raise IndexError).
Proof.
  refine (proj2 (@class_index_out_of_range demo_topk demo_collaborators
                   "imgs/a.png" [["cat"]] 100 0 "out" false false
                   demo_fs demo_raw demo_raw
                   (mkInstance (2, 2, 8, 8)%Q 1 (6 # 10)) eq_refl eq_refl _ _)).
  - simpl. auto.
  - simpl. lia.
Defined.

Lemma load_texts_shape fs text texts :
  load_texts fs text = Ok texts ->
  exists names, texts = map (fun n : string => [n]) names ++ [[" "]].
Proof.
  unfold load_texts. destruct (PyStr.endswith text ".txt").
  - destruct (open_readlines fs text) as [lines|e]; simpl; [|discriminate].
    intros [= <-]. exists (map PyStr.rstrip_crlf lines). now rewrite map_map.
  - intros [= <-]. exists (map PyStr.strip (PyStr.split "," text)).
    now rewrite map_map.
Qed.

(** X17: labels can always be rendered from a prompt set the loader
    returned.  For every class index from [-len] up to [len - 1] the
    label is built without an exception, and the indices [len - 1] and
    [-1], which name the sentinel class, give a label whose name is a
    single space. *)
Theorem loaded_texts_labels (fs : filesystem) (text : string)
    (texts : list (list string)) (d : Detection) :
  load_texts fs text = Ok texts ->
  (- Z.of_nat (List.length texts) <= class_id d
   < Z.of_nat (List.length texts))%Z ->
  exists name : string,
    label_of texts d = Ok (name ++ " " ++ format_2f (confidence d))%string
    /\ (class_id d = (Z.of_nat (List.length texts) - 1)%Z \/ class_id d = (-1)%Z ->
        name = " ").
Proof.
  intros Hload Hc. apply load_texts_shape in Hload as [names ->].
  destruct (py_index_wraps _ (class_id d) Hc) as (group & Hn & Hp).
  rewrite length_app, length_map in *. simpl List.length in *.
  set (n := List.length names) in *.
  destruct (Z.eq_dec (class_id d mod Z.of_nat (n + 1))%Z (Z.of_nat n)) as [E|E].
  - rewrite E, Nat2Z.id, nth_error_app2 in Hn by (rewrite length_map; lia).
    rewrite length_map, Nat.sub_diag in Hn. injection Hn as <-.
    exists " ". split; [|reflexivity]. unfold label_of. now rewrite Hp.
  - assert (Hm : (0 <= class_id d mod Z.of_nat (n + 1) < Z.of_nat (n + 1))%Z)
      by (apply Z.mod_pos_bound; lia).
    rewrite nth_error_app1 in Hn by (rewrite length_map; lia).
    rewrite nth_error_map in Hn.
    destruct (nth_error names _) as [name|]; [|discriminate].
    injection Hn as <-. exists name. split.
    + unfold label_of. now rewrite Hp.
    + intros [Hlast|Hlast]; exfalso; apply E; rewrite Hlast.
      * rewrite Z.mod_small by lia. lia.
      * symmetry. apply (Z.mod_unique (-1) (Z.of_nat (n + 1)) (-1)); lia.
Qed.

Lemma loaded_texts_labels_witness :
  exists name : string,
    label_of [["cat"]; ["dog"]; [" "]] (mkDetection (0, 0, 1, 1)%Q 2 (1 # 4))
    = Ok (name ++ " " ++ format_2f (1 # 4))%string
    /\ ((2 = 3 - 1)%Z \/ (2 = -1)%Z -> name = " ").
Proof.
  apply (loaded_texts_labels demo_fs "cat,dog" [["cat"]; ["dog"]; [" "]]
           (mkDetection (0, 0, 1, 1)%Q 2 (1 # 4)) eq_refl).
  simpl. lia.
Defined.

(** ** The work directory *)








(** ** A completed run over a directory *)




